(** * news_feed: the ingestion pass of [src/server.js] and [src/utils/fetcher.js]

    A shallow embedding of the article pipeline: the [isRunning] guard, the
    two JSON files under [data/], the per-source and per-item loops of
    [fetchArticles], the capacity step, and the [/api/feed] read.

    Conventions of the embedding.
    - A JS value that may be [undefined] (an RSS item without [link],
      [title] or [pubDate]) is an [option string]; [===] on such values is
      [strict_eq].  [JSON.stringify] leaves an [undefined] field out and
      [JSON.parse] gives it back as [undefined], so the files hold the same
      records.
    - [new Date(x)] is [option Z]: the time value in milliseconds, [None]
      for an Invalid Date (whose arithmetic gives [NaN]).  Only the sign of
      a difference of dates is used, so the differences are exact integers.
    - A rejected promise / thrown [Error] is [Thrown e]; only [e.message]
      is ever observed by the code.
    - The process is a record [proc]; everything the code does to the
      outside (console, file reads and writes, network and summarizer
      calls) is appended to [trace] in program order.
    - A file is its logical content: missing, not JSON, or the list it
      parses to.  Reading fails exactly on the first two; writing succeeds.
      A file that holds JSON of another shape ([null], an object) and a
      write that fails are not among the states of the model.  Files are
      named by their path below the directory of [server.js]; the text of
      an ENOENT error names the full path.
    - External capabilities (rss-parser, [ai.summarize], the [Date]
      parser and the wall clock) are the fields of [Env].  An [Env] says
      how each call made during one pass settles; every awaited call is
      taken to settle.
    - [fetchArticles] is run from its first line to its [return].  What
      another request can see of a pass under way is [isRunning = true],
      and the first branch of [fetchArticles] is what it then gets. *)

From Stdlib Require Import List String Ascii ZArith Lia Bool Arith.
From Stdlib Require Import Permutation Sorted DecimalString.
Import ListNotations.

Set Implicit Arguments.
Local Open Scope string_scope.
Local Open Scope list_scope.

(* ================================================================== *)
(** ** Data model *)

(** An entry of [data/sources.json]: [{ id, name, url, type, enabled }]
    (server.js line 64). *)
Record source := mkSource {
  src_id : Z;
  src_name : string;
  src_url : string;
  src_type : string;
  src_enabled : bool
}.

(** An element of [feed.items] as rss-parser delivers it; the fields read
    by fetcher.js lines 13-18. *)
Record rss_item := mkRss {
  i_title : option string;
  i_link : option string;
  i_pubDate : option string;
  i_contentSnippet : option string;
  i_content : option string
}.

(** What [fetchSource] returns per item: [{ title, link, published, content }]. *)
Record raw_item := mkItem {
  it_title : option string;
  it_link : option string;
  it_published : option string;
  it_content : string
}.

(** An entry of [data/articles.json] (server.js lines 206-214). *)
Record article := mkArticle {
  a_sourceId : Z;
  a_sourceName : string;
  a_title : option string;
  a_link : option string;
  a_published_at : option string;
  a_summary : string;
  a_fetched_at : string
}.

(** A thrown [Error]; the code only reads [e.message]. *)
Inductive exn := Error (msg : string).

Definition e_message (e : exn) : string := match e with Error m => m end.

Inductive outcome (A : Type) :=
| Returned (a : A)
| Thrown (e : exn).
Arguments Returned {A} a.
Arguments Thrown {A} e.

(** The logical content of a JSON file on disk.  [Malformed c] is a file
    whose text [JSON.parse] rejects with a SyntaxError of message [c];
    [Stored v] is a file whose text parses to [v]. *)
Inductive disk_file (A : Type) :=
| Absent
| Malformed (complaint : string)
| Stored (value : A).
Arguments Absent {A}.
Arguments Malformed {A} complaint.
Arguments Stored {A} value.

Inductive event :=
| ConsoleLog (line : string)
| ConsoleError (line : string)
| FsRead (path : string)
| FsWrite (path : string)
| HttpGet (u : string)
| Summarize (body : string).

(** The process: the module-level [isRunning], the two data files, the
    number of [new Date()] readings taken so far, and the effects so far. *)
Record proc := mkProc {
  isRunning : bool;
  sourcesFile : disk_file (list source);
  articlesFile : disk_file (list article);
  dateReads : nat;
  trace : list event
}.

(** The local variables [articles] and [newCount] of one activation of
    [fetchArticles].  [articles.push] and [newCount++] mutate them in
    place, so they survive an exception thrown inside the loops. *)
Record locals := mkLocals {
  articles : list article;
  newCount : nat
}.

(** The external capabilities. *)
Record Env := mkEnv {
  (** [parser.parseURL(url)] of rss-parser: the items of the feed, or a
      rejection. *)
  parseURL : string -> outcome (list rss_item);
  (** [ai.summarize(content)] of utils/ai. *)
  summarize : string -> outcome string;
  (** [new Date(s).getTime()], [None] when it is [NaN]. *)
  Date_parse : string -> option Z;
  (** [new Date().toISOString()] at the n-th reading of the clock. *)
  clock : nat -> string
}.

(** The result object [{ success, message }] of [fetchArticles]. *)
Record fetch_result := mkResult {
  success : bool;
  message : string
}.

(** What an HTTP handler sends: [res.json(v)] or [res.status(500).json({error})]. *)
Inductive response (A : Type) :=
| Json200 (body : A)
| Json500 (error : string).
Arguments Json200 {A} body.
Arguments Json500 {A} error.

(* ================================================================== *)
(** ** A state-and-exception monad for the JS control flow *)

Definition M (S A : Type) : Type := S -> outcome A * S.

Definition ret {S A} (a : A) : M S A := fun s => (Returned a, s).

Definition bind {S A B} (m : M S A) (k : A -> M S B) : M S B :=
  fun s =>
    match m s with
    | (Returned a, s') => k a s'
    | (Thrown e, s') => (Thrown e, s')
    end.

(** [try { m } catch (e) { h e }] *)
Definition try_catch {S A} (m : M S A) (h : exn -> M S A) : M S A :=
  fun s =>
    match m s with
    | (Returned a, s') => (Returned a, s')
    | (Thrown e, s') => h e s'
    end.

(** [try { m } finally { f }]: [f] runs on every exit of [m]; the
    completion of [m] is kept unless [f] itself throws. *)
Definition try_finally {S A} (m : M S A) (f : M S unit) : M S A :=
  fun s =>
    match m s with
    | (r, s') =>
        match f s' with
        | (Returned _, s'') => (r, s'')
        | (Thrown e, s'') => (Thrown e, s'')
        end
    end.

Declare Scope js_scope.
Delimit Scope js_scope with js.
Notation "x <- m ;; k" := (bind m (fun x => k))
  (at level 61, m at next level, right associativity) : js_scope.
Notation "m ;; k" := (bind m (fun _ => k))
  (at level 61, right associativity) : js_scope.
Local Open Scope js_scope.

(** [for (const x of xs) { body x }] *)
Fixpoint for_of {S X} (xs : list X) (body : X -> M S unit) : M S unit :=
  match xs with
  | [] => ret tt
  | x :: rest => body x ;; for_of rest body
  end.

(** Run a computation of the process inside an activation that also has
    locals. *)
Definition liftP {A} (m : M proc A) : M (proc * locals) A :=
  fun st =>
    match m (fst st) with
    | (r, p') => (r, (p', snd st))
    end.

(** Enter an activation with fresh locals; they are dropped on exit. *)
Definition with_locals {A} (init : locals) (m : M (proc * locals) A) : M proc A :=
  fun p =>
    match m (p, init) with
    | (r, st) => (r, fst st)
    end.

(* ================================================================== *)
(** ** Primitive effects *)

Definition sourcesPath : string := "data/sources.json".
Definition articlesPath : string := "data/articles.json".

Definition set_isRunning (b : bool) : M proc unit :=
  fun p => (Returned tt,
            mkProc b (sourcesFile p) (articlesFile p) (dateReads p) (trace p)).

Definition emit (ev : event) : M proc unit :=
  fun p => (Returned tt,
            mkProc (isRunning p) (sourcesFile p) (articlesFile p) (dateReads p)
                   (trace p ++ [ev])).

Definition console_log (line : string) : M proc unit := emit (ConsoleLog line).
Definition console_error (line : string) : M proc unit := emit (ConsoleError line).

Definition ENOENT (path : string) : exn :=
  Error ("ENOENT: no such file or directory, open '" ++ path ++ "'")%string.

(** [JSON.parse(fs.readFileSync(path, 'utf8'))] on a file of content [f]. *)
Definition parse_file {A} (path : string) (f : disk_file A) : outcome A :=
  match f with
  | Absent => Thrown (ENOENT path)
  | Malformed c => Thrown (Error c)
  | Stored v => Returned v
  end.

Definition read_sources : M proc (list source) :=
  emit (FsRead sourcesPath) ;;
  fun p => (parse_file sourcesPath (sourcesFile p), p).

Definition read_articles : M proc (list article) :=
  emit (FsRead articlesPath) ;;
  fun p => (parse_file articlesPath (articlesFile p), p).

(** [fs.writeFileSync(articlesPath, JSON.stringify(v, null, 2))] *)
Definition write_articles (v : list article) : M proc unit :=
  emit (FsWrite articlesPath) ;;
  fun p => (Returned tt,
            mkProc (isRunning p) (sourcesFile p) (Stored v) (dateReads p) (trace p)).

Section WithEnv.

Variable env : Env.

(** [new Date().toISOString()] *)
Definition Date_now_toISOString : M proc string :=
  fun p => (Returned (clock env (dateReads p)),
            mkProc (isRunning p) (sourcesFile p) (articlesFile p)
                   (S (dateReads p)) (trace p)).

(** [new Date(x)] for a field that may be missing. *)
Definition new_Date (x : option string) : option Z :=
  match x with
  | None => None
  | Some s => Date_parse env s
  end.

(** [d1 - d2] on two Dates: [NaN] as soon as one is invalid. *)
Definition Date_minus (d1 d2 : option Z) : option Z :=
  match d1, d2 with
  | Some t1, Some t2 => Some (t1 - t2)%Z
  | _, _ => None
  end.

(* ================================================================== *)
(** ** [Array.prototype.sort] and [slice] *)

(** The number [sort] works with after calling the comparator: a [NaN]
    counts as [+0] (ECMAScript SortCompare). *)
Definition SortCompare {A} (comparefn : A -> A -> option Z) (x y : A) : Z :=
  match comparefn x y with
  | Some v => v
  | None => 0%Z
  end.

(** [x] is put in front of the already sorted [l], and moves right past
    every element it has to come after. *)
Fixpoint sort_insert {A} (comparefn : A -> A -> option Z) (x : A) (l : list A)
  : list A :=
  match l with
  | [] => [x]
  | y :: rest =>
      if (0 <? SortCompare comparefn x y)%Z
      then y :: sort_insert comparefn x rest
      else x :: y :: rest
  end.

(** [arr.sort(comparefn)].  The sort is stable; on every array on which
    the comparator is a consistent ordering this is the order ECMAScript
    prescribes.  On other arrays the standard leaves the order to the
    engine, and this is the order a stable insertion sort produces. *)
Fixpoint sort {A} (comparefn : A -> A -> option Z) (l : list A) : list A :=
  match l with
  | [] => []
  | x :: rest => sort_insert comparefn x (sort comparefn rest)
  end.

(** [arr.slice(0, n)] *)
Definition slice0 {A} (n : nat) (l : list A) : list A := firstn n l.

(* ================================================================== *)
(** ** src/utils/fetcher.js *)

Definition string_eqb_opt (x y : option string) : bool :=
  match x, y with
  | Some a, Some b => String.eqb a b
  | None, None => true
  | _, _ => false
  end.

(** [x === y] on values that are strings or [undefined]. *)
Definition strict_eq (x y : option string) : bool := string_eqb_opt x y.

(** Truthiness of a string-or-undefined value. *)
Definition truthy (x : option string) : bool :=
  match x with
  | Some s => negb (String.eqb s "")
  | None => false
  end.

(** [i.contentSnippet || i.content || ''] *)
Definition content_of (i : rss_item) : string :=
  if truthy (i_contentSnippet i) then
    match i_contentSnippet i with Some s => s | None => "" end
  else if truthy (i_content i) then
    match i_content i with Some s => s | None => "" end
  else "".

(** The arrow function of [feed.items.map] (lines 13-18). *)
Definition to_item (i : rss_item) : raw_item :=
  mkItem (i_title i) (i_link i) (i_pubDate i) (content_of i).

(** [await parser.parseURL(source.url)] *)
Definition parser_parseURL (u : string) : M proc (list rss_item) :=
  emit (HttpGet u) ;;
  fun p => (parseURL env u, p).

(** [fetchSource(source)] (lines 9-22). *)
Definition fetchSource (source0 : source) : M proc (list raw_item) :=
  if String.eqb (src_type source0) "rss" then
    items <- parser_parseURL (src_url source0) ;;
    ret (map to_item items)
  else
    ret [].

(* ================================================================== *)
(** ** src/server.js: the ingestion pass *)

Definition MAX_ARTICLES : nat := 200.

Definition show_nat (n : nat) : string := NilZero.string_of_uint (Nat.to_uint n).

(** [await ai.summarize(content)] *)
Definition ai_summarize (body : string) : M proc string :=
  emit (Summarize body) ;;
  fun p => (summarize env body, p).

Definition get_articles : M (proc * locals) (list article) :=
  fun st => (Returned (articles (snd st)), st).

Definition get_newCount : M (proc * locals) nat :=
  fun st => (Returned (newCount (snd st)), st).

(** [articles = v] *)
Definition set_articles (v : list article) : M (proc * locals) unit :=
  fun st => (Returned tt, (fst st, mkLocals v (newCount (snd st)))).

(** [articles.push(a)] *)
Definition articles_push (a : article) : M (proc * locals) unit :=
  fun st => (Returned tt,
             (fst st, mkLocals (articles (snd st) ++ [a]) (newCount (snd st)))).

(** [newCount++] *)
Definition newCount_incr : M (proc * locals) unit :=
  fun st => (Returned tt,
             (fst st, mkLocals (articles (snd st)) (S (newCount (snd st))))).

(** The body of [for (const it of items)] (lines 202-215). *)
Definition ingest_item (src : source) (it : raw_item) : M (proc * locals) unit :=
  arts <- get_articles ;;
  match find (fun a => strict_eq (a_link a) (it_link it)) arts with
  | Some _ => ret tt
  | None =>
      summary <- liftP (ai_summarize (it_content it)) ;;
      now <- liftP Date_now_toISOString ;;
      articles_push
        (mkArticle (src_id src) (src_name src) (it_title it) (it_link it)
                   (it_published it) summary now) ;;
      newCount_incr
  end.

(** The body of [for (const src of ...)] (lines 197-219): the inner
    [try]/[catch] around one source. *)
Definition ingest_source (src : source) : M (proc * locals) unit :=
  try_catch
    (liftP (console_log ("Fetching from " ++ src_name src ++ "...")%string) ;;
     items <- liftP (fetchSource src) ;;
     for_of items (ingest_item src))
    (fun e =>
       liftP (console_error
                ("Error processing " ++ src_name src ++ ": " ++ e_message e)%string)).

(** The comparator [(a, b) => new Date(b.fetched_at) - new Date(a.fetched_at)]. *)
Definition by_fetched_at_desc (a b : article) : option Z :=
  Date_minus (new_Date (Some (a_fetched_at b))) (new_Date (Some (a_fetched_at a))).

(** "Keep only the most recent articles" (lines 223-227), for a bound [max]. *)
Definition keep_most_recent (max : nat) (arts : list article) : list article :=
  if (max <? List.length arts)%nat
  then slice0 max (sort by_fetched_at_desc arts)
  else arts.

Definition fetched_message (n total : nat) : string :=
  ("Fetched " ++ show_nat n ++ " new articles. Total: " ++ show_nat total)%string.

Definition already_in_progress : fetch_result :=
  mkResult false "Fetch already in progress".

(** The [try] block of [fetchArticles] (lines 192-231). *)
Definition pass_body : M proc fetch_result :=
  sources <- read_sources ;;
  stored <- read_articles ;;
  with_locals (mkLocals stored 0)
    (for_of (filter src_enabled sources) ingest_source ;;
     arts <- get_articles ;;
     set_articles (keep_most_recent MAX_ARTICLES arts) ;;
     arts <- get_articles ;;
     n <- get_newCount ;;
     liftP (write_articles arts) ;;
     liftP (console_log
              ("Fetch complete. Total articles: " ++ show_nat (List.length arts)
               ++ ", New: " ++ show_nat n)%string) ;;
     ret (mkResult true (fetched_message n (List.length arts)))).

(** [async function fetchArticles()] (lines 183-238). *)
Definition fetchArticles : M proc fetch_result :=
  fun p =>
    if isRunning p then
      ret already_in_progress p
    else
      (set_isRunning true ;;
       console_log "Starting manual fetch..." ;;
       try_finally
         (try_catch pass_body
            (fun e =>
               console_error ("Error in fetch: " ++ e_message e)%string ;;
               ret (mkResult false (e_message e))))
         (set_isRunning false)) p.

(* ================================================================== *)
(** ** src/server.js: reading the feed, and start-up *)

(** The comparator [(a, b) => new Date(b.published_at) - new Date(a.published_at)]. *)
Definition by_published_at_desc (a b : article) : option Z :=
  Date_minus (new_Date (a_published_at b)) (new_Date (a_published_at a)).

(** [app.get('/api/feed', ...)] (lines 88-98).  The console line stands
    for [console.error('Error reading articles:', e)], which prints the
    error object. *)
Definition api_feed : M proc (response (list article)) :=
  try_catch
    (arts <- read_articles ;;
     ret (Json200 (sort by_published_at_desc arts)))
    (fun e =>
       console_error ("Error reading articles: " ++ e_message e)%string ;;
       ret (Json500 "Failed to read articles")).

End WithEnv.

(** Lines 23-28: a data file that does not exist is created as ['[]']. *)
Definition create_if_missing {A} (f : disk_file (list A)) : disk_file (list A) :=
  match f with
  | Absent => Stored []
  | other => other
  end.

Definition initialize_data_files (p : proc) : proc :=
  mkProc (isRunning p)
         (create_if_missing (sourcesFile p))
         (create_if_missing (articlesFile p))
         (dateReads p) (trace p).

(* ================================================================== *)
(** ** utils/ai.js *)

(** Modelled from the spec: [ai.summarize] of utils/ai.js, the module
    server.js requires as [./utils/ai]; its source is not in the
    repository snapshot.  Spec section 4.3: [summarize] is total over any
    input; it may depend on an external capability, whose failure is
    caught and degraded to a fallback summary, "first N characters of
    body".  [capability] is that external call, [N] the length of the
    fallback. *)
Definition summarize_with_fallback
    (capability : string -> outcome string) (N : nat) (body : string)
  : outcome string :=
  match capability body with
  | Returned s => Returned s
  | Thrown _ => Returned (substring 0 N body)
  end.

(** The environment [env] with [f] as its [ai.summarize]. *)
Definition with_summarizer (env : Env) (f : string -> outcome string) : Env :=
  mkEnv (parseURL env) f (Date_parse env) (clock env).

(* ================================================================== *)
(** ** src/server.js: the source registry (lines 45-85) *)

(** [req.body] of [POST /api/sources] as the body parsers leave it: each
    of the three fields read is a string or [undefined]. *)
Record source_form := mkForm {
  f_name : option string;
  f_url : option string;
  f_type : option string
}.

(** What the registry handlers send: [res.json(src)], [{ success: true, id }],
    [{ success: true }] and [{ error }]. *)
Inductive payload :=
| SourceList (l : list source)
| Added (id : Z)
| Done
| Failure (error : string).

(** [res.status(n).json(b)]; [res.json(b)] is status 200. *)
Record reply := mkReply {
  reply_status : nat;
  reply_payload : payload
}.

(** [fs.writeFileSync(sourcesPath, JSON.stringify(v, null, 2))] *)
Definition write_sources (v : list source) : M proc unit :=
  emit (FsWrite sourcesPath) ;;
  fun p => (Returned tt,
            mkProc (isRunning p) (Stored v) (articlesFile p) (dateReads p) (trace p)).

(** [Date.now()], for a clock whose n-th reading is [ms_clock n]. *)
Definition Date_now (ms_clock : nat -> Z) : M proc Z :=
  fun p => (Returned (ms_clock (dateReads p)),
            mkProc (isRunning p) (sourcesFile p) (articlesFile p)
                   (S (dateReads p)) (trace p)).

(** The string a truthy field holds. *)
Definition field (x : option string) : string :=
  match x with
  | Some s => s
  | None => ""
  end.

(** [app.get('/api/sources', ...)] (lines 45-53). *)
Definition get_sources : M proc reply :=
  try_catch
    (src <- read_sources ;;
     ret (mkReply 200 (SourceList src)))
    (fun e =>
       console_error ("Error reading sources: " ++ e_message e)%string ;;
       ret (mkReply 500 (Failure "Failed to read sources"))).

(** [app.post('/api/sources', ...)] (lines 56-71). *)
Definition post_sources (ms_clock : nat -> Z) (form : source_form) : M proc reply :=
  try_catch
    (if (negb (truthy (f_name form)) || negb (truthy (f_url form))
         || negb (truthy (f_type form)))%bool
     then ret (mkReply 400 (Failure "Missing required fields"))
     else
       sources <- read_sources ;;
       id <- Date_now ms_clock ;;
       write_sources
         (sources ++ [mkSource id (field (f_name form)) (field (f_url form))
                               (field (f_type form)) true]) ;;
       ret (mkReply 200 (Added id)))
    (fun e =>
       console_error ("Error adding source: " ++ e_message e)%string ;;
       ret (mkReply 500 (Failure "Failed to add source"))).

(** [s.id !== id] for a stored id and the number [parseInt] gave, [None]
    being [NaN], which differs from every number. *)
Definition id_differs (stored : Z) (id : option Z) : bool :=
  match id with
  | Some v => negb (Z.eqb stored v)
  | None => true
  end.

(** [app.delete('/api/sources/:id', ...)] (lines 74-85); [parseInt] is
    the JS global, [param] is [req.params.id]. *)
Definition delete_sources (parseInt : string -> option Z) (param : string)
  : M proc reply :=
  try_catch
    (let id := parseInt param in
     sources <- read_sources ;;
     write_sources (filter (fun s => id_differs (src_id s) id) sources) ;;
     ret (mkReply 200 Done))
    (fun e =>
       console_error ("Error deleting source: " ++ e_message e)%string ;;
       ret (mkReply 500 (Failure "Failed to delete source"))).

(* ================================================================== *)
(** ** src/server.js: start-up fetch and [POST /api/fetch] *)

(** The callback of [setTimeout] (lines 31-41). *)
Definition startup_fetch (env : Env) : M proc unit :=
  console_log "Auto-fetching articles on server startup..." ;;
  try_catch
    (result <- fetchArticles env ;;
     console_log ("Startup fetch result: " ++ message result)%string)
    (fun err =>
       console_error ("Startup fetch error: " ++ e_message err)%string).

(** [hay.includes(needle)] *)
Fixpoint includes (needle hay : string) : bool :=
  (prefix needle hay
   || match hay with
      | EmptyString => false
      | String _ rest => includes needle rest
      end)%bool.

(** [h?.includes(needle)] used as a condition: [undefined] is falsy. *)
Definition header_includes (h : option string) (needle : string) : bool :=
  match h with
  | Some v => includes needle v
  | None => false
  end.

(** The two request headers [POST /api/fetch] reads. *)
Record fetch_headers := mkHeaders {
  h_content_type : option string;
  h_accept : option string
}.

Inductive fetch_reply :=
| Redirect (location : string)
| JsonResult (r : fetch_result).

(** [app.post('/api/fetch', ...)] (lines 240-248). *)
Definition post_fetch (env : Env) (h : fetch_headers) : M proc fetch_reply :=
  result <- fetchArticles env ;;
  if (header_includes (h_content_type h) "application/x-www-form-urlencoded"
      || negb (header_includes (h_accept h) "application/json"))%bool
  then ret (Redirect "/text")
  else ret (JsonResult result).

(* ================================================================== *)
(** ** src/server.js: "Last updated" of the text views *)

(** The comparator [(a, b) => b - a] on Dates. *)
Definition later_first (a b : option Z) : option Z := Date_minus b a.

(** Lines 257-263 of [/text/plain], and again lines 299-305 of [/text]:
    ['Never'] for an empty array, else [toLocaleString()] of element 0 of
    the fetch dates sorted with [later_first].  The array sorted is not
    empty there, so element 0 exists.  [toLocaleString] is the method of
    [Date] in the server's locale. *)
Definition last_updated (env : Env) (toLocaleString : option Z -> string)
    (arts : list article) : string :=
  match arts with
  | [] => "Never"
  | _ :: _ =>
      toLocaleString
        (hd None
           (sort later_first
              (map (fun a => new_Date env (Some (a_fetched_at a))) arts)))
  end.

(* ================================================================== *)
(** ** src/server.js: [escapeHtml] (lines 370-378) *)

(** [s.replace(/c/g, rep)] for a pattern of one literal character.  A
    string is its UTF-8 bytes; the five characters [escapeHtml] replaces
    are ASCII, which occur in UTF-8 only as themselves. *)
Fixpoint replace_all (c : ascii) (rep : string) (s : string) : string :=
  match s with
  | EmptyString => EmptyString
  | String a rest =>
      if Ascii.eqb a c
      then (rep ++ replace_all c rep rest)%string
      else String a (replace_all c rep rest)
  end.

Definition chr_amp : ascii := ascii_of_nat 38.
Definition chr_lt : ascii := ascii_of_nat 60.
Definition chr_gt : ascii := ascii_of_nat 62.
Definition chr_quot : ascii := ascii_of_nat 34.
Definition chr_apos : ascii := ascii_of_nat 39.

(** [function escapeHtml(text)] *)
Definition escapeHtml (text : option string) : string :=
  if negb (truthy text) then ""
  else
    replace_all chr_apos "&#039;"
      (replace_all chr_quot "&quot;"
         (replace_all chr_gt "&gt;"
            (replace_all chr_lt "&lt;"
               (replace_all chr_amp "&amp;" (field text))))).

(* ================================================================== *)
(** ** Vocabulary for stating what the code does *)

(** The process after some more effects, nothing else changed. *)
Definition logged (p : proc) (evs : list event) : proc :=
  mkProc (isRunning p) (sourcesFile p) (articlesFile p) (dateReads p)
         (trace p ++ evs).

(** The two console lines of the source loop (lines 198 and 218). *)
Definition fetching_line (src : source) : string :=
  ("Fetching from " ++ src_name src ++ "...")%string.

Definition failure_line (src : source) (e : exn) : string :=
  ("Error processing " ++ src_name src ++ ": " ++ e_message e)%string.

(** The comparator orders the elements of [l] by a key, larger key first:
    [x] has to come after [y] exactly when its key is smaller. *)
Definition descending_by {A} (comparefn : A -> A -> option Z) (key : A -> Z)
    (l : list A) : Prop :=
  forall x y, In x l -> In y l ->
    (0 <? SortCompare comparefn x y)%Z = (key x <? key y)%Z.

Definition key_ge {A} (key : A -> Z) (a b : A) : Prop := (key b <= key a)%Z.

(** The elements of one key, in the order they have in [l]. *)
Definition with_key {A} (key : A -> Z) (t : Z) (l : list A) : list A :=
  filter (fun a => (key a =? t)%Z) l.

(** The loops leave the guard and both files alone; they only append to
    [articles], count what they append, and keep the links distinct. *)
Definition grows (st st' : proc * locals) : Prop :=
  isRunning (fst st') = isRunning (fst st) /\
  sourcesFile (fst st') = sourcesFile (fst st) /\
  articlesFile (fst st') = articlesFile (fst st) /\
  (exists evs, trace (fst st') = trace (fst st) ++ evs) /\
  exists added,
    articles (snd st') = articles (snd st) ++ added /\
    newCount (snd st') = newCount (snd st) + List.length added /\
    (NoDup (map a_link (articles (snd st))) ->
     NoDup (map a_link (articles (snd st')))).

(** What [fetchSource] resolves to; it does not depend on the process. *)
Definition fetched (env : Env) (src : source) : outcome (list raw_item) :=
  fst (fetchSource env src (mkProc false Absent Absent 0 [])).

(** The process when the source loop is entered: guard taken, both files
    read. *)
Definition started (p : proc) : proc :=
  mkProc true (sourcesFile p) (articlesFile p) (dateReads p)
         (trace p ++ [ConsoleLog "Starting manual fetch...";
                      FsRead sourcesPath; FsRead articlesPath]).

(** The process when a pass that left the loop in [p1] has written [kept]
    and released the guard. *)
Definition completed (p1 : proc) (kept : list article) (n : nat) : proc :=
  mkProc false (sourcesFile p1) (Stored kept) (dateReads p1)
         (trace p1 ++
            [FsWrite articlesPath;
             ConsoleLog ("Fetch complete. Total articles: "
                         ++ show_nat (List.length kept)
                         ++ ", New: " ++ show_nat n)%string]).

(** The process with another content of [data/articles.json]. *)
Definition with_articlesFile (p : proc) (f : disk_file (list article)) : proc :=
  mkProc (isRunning p) (sourcesFile p) f (dateReads p) (trace p).

(** A file that is missing, or whose text is not JSON. *)
Definition unreadable {A} (f : disk_file A) : Prop :=
  match f with
  | Stored _ => False
  | _ => True
  end.

(** "A missing or corrupt article store is loaded as the empty store": the
    call returns, and persists, what it does when the file holds ['[]']. *)
Definition loads_as_empty_store (env : Env) (p : proc) : Prop :=
  fst (fetchArticles env p)
    = fst (fetchArticles env (with_articlesFile p (Stored []))) /\
  articlesFile (snd (fetchArticles env p))
    = articlesFile (snd (fetchArticles env (with_articlesFile p (Stored [])))).

(** [new Date(a.fetched_at)] and [new Date(a.published_at)] as time
    values. *)
Definition fetched_time (env : Env) (a : article) : option Z :=
  new_Date env (Some (a_fetched_at a)).

Definition published_time (env : Env) (a : article) : option Z :=
  new_Date env (a_published_at a).

(** The time value as a number, for arrays all of whose dates are valid. *)
Definition ms (t : option Z) : Z :=
  match t with
  | Some v => v
  | None => 0%Z
  end.

(** Both dates are valid and the first is not later than the second. *)
Definition not_later (x y : option Z) : Prop :=
  match x, y with
  | Some a, Some b => (a <= b)%Z
  | _, _ => False
  end.

(** "Articles without a valid [published_at] sort as oldest": in the
    array [out], whatever follows an undated article is undated too. *)
Definition undated_sort_last (env : Env) (out : list article) : Prop :=
  forall front a back,
    out = front ++ a :: back ->
    published_time env a = None ->
    Forall (fun b => published_time env b = None) back.

(** No [console.error] among the effects [evs]. *)
Definition quiet (evs : list event) : Prop :=
  forall line, ~ In (ConsoleError line) evs.

(** The requests [fetchSource] makes for a source. *)
Definition requests_of (src : source) : list event :=
  if String.eqb (src_type src) "rss" then [HttpGet (src_url src)] else [].

(** Among the effects [evs], requests go only to the URLs of enabled
    sources of type ['rss'] of the list [srcs]. *)
Definition requests_within (srcs : list source) (evs : list event) : Prop :=
  forall u, In (HttpGet u) evs ->
    exists src, In src srcs /\ src_enabled src = true /\
                src_type src = "rss" /\ src_url src = u.

(** From [st] to [st'] the effects are calls of the summarizer only. *)
Definition only_summarizes (st st' : proc * locals) : Prop :=
  exists evs, trace (fst st') = trace (fst st) ++ evs /\
              forall ev, In ev evs -> exists b, ev = Summarize b.

(** From [st] to [st'] the effects, whatever else they are, request
    within [srcs]. *)
Definition requests_from (srcs : list source) (st st' : proc * locals) : Prop :=
  exists evs, trace (fst st') = trace (fst st) ++ evs /\ requests_within srcs evs.

(** From [st] to [st'] articles were appended, each stamped with its own
    reading of the clock, the readings taken one after the other. *)
Definition stamped (env : Env) (st st' : proc * locals) : Prop :=
  exists added,
    articles (snd st') = articles (snd st) ++ added /\
    dateReads (fst st') = dateReads (fst st) + List.length added /\
    map a_fetched_at added
      = map (clock env) (seq (dateReads (fst st)) (List.length added)).

(** The article [a] was made from an item of [items] for the source
    [src], with the summary the summarizer gave for the item's content. *)
Definition built_by (env : Env) (src : source) (items : list raw_item)
    (a : article) : Prop :=
  exists it,
    In it items /\
    a_sourceId a = src_id src /\ a_sourceName a = src_name src /\
    a_title a = it_title it /\ a_link a = it_link it /\
    a_published_at a = it_published it /\
    summarize env (it_content it) = Returned (a_summary a).

(** The article [a] was made from an item an enabled source of [srcs]
    delivered. *)
Definition built_from (env : Env) (srcs : list source) (a : article) : Prop :=
  exists src items,
    In src srcs /\ src_enabled src = true /\
    fetched env src = Returned items /\ built_by env src items a.

(** From [st] to [st'] articles were appended that all satisfy [P]. *)
Definition appended (P : article -> Prop) (st st' : proc * locals) : Prop :=
  exists added,
    articles (snd st') = articles (snd st) ++ added /\ Forall P added.

(** What [escapeHtml] makes of one character. *)
Definition escape_char (c : ascii) : string :=
  if Ascii.eqb c chr_amp then "&amp;"
  else if Ascii.eqb c chr_lt then "&lt;"
  else if Ascii.eqb c chr_gt then "&gt;"
  else if Ascii.eqb c chr_quot then "&quot;"
  else if Ascii.eqb c chr_apos then "&#039;"
  else String c EmptyString.

(** The characters of [s] escaped one by one, in one pass. *)
Fixpoint escape_string (s : string) : string :=
  match s with
  | EmptyString => EmptyString
  | String c rest => (escape_char c ++ escape_string rest)%string
  end.

(** The character [c] occurs in [s]. *)
Fixpoint occurs (c : ascii) (s : string) : Prop :=
  match s with
  | EmptyString => False
  | String a rest => a = c \/ occurs c rest
  end.

(* ================================================================== *)
(** ** Concrete environments used by the examples *)

Module Demo.

Definition digit (n : nat) : ascii := ascii_of_nat (48 + n).

Definition pad3 (n : nat) : string :=
  String (digit (n / 100))
    (String (digit ((n / 10) mod 10)) (String (digit (n mod 10)) EmptyString)).

(** [new Date(n).toISOString()] for [0 <= n < 1000]. *)
Definition iso_of_ms (n : nat) : string :=
  ("1970-01-01T00:00:00." ++ pad3 n ++ "Z")%string.

Definition digit_value (c : ascii) : option nat :=
  let k := nat_of_ascii c in
  if ((48 <=? k) && (k <=? 57))%nat then Some (k - 48) else None.

Definition parse3 (s : string) : option nat :=
  match s with
  | String a (String b (String c EmptyString)) =>
      match digit_value a, digit_value b, digit_value c with
      | Some x, Some y, Some z => Some (100 * x + 10 * y + z)
      | _, _, _ => None
      end
  | _ => None
  end.

(** The [Date] parser restricted to the timestamps of the first second of
    the epoch in the format [toISOString] prints; every other string used
    in the examples is one JS does not parse as a date either. *)
Definition ms_of_iso (s : string) : option Z :=
  if (String.eqb (substring 0 20 s) "1970-01-01T00:00:00."
      && String.eqb (substring 23 25 s) "Z")%bool
  then option_map Z.of_nat (parse3 (substring 20 3 s))
  else None.

Definition feedA : string := "https://a.example/rss".
Definition feedB : string := "https://b.example/rss".

Definition itemB1 : rss_item :=
  mkRss (Some "One") (Some "https://x/1") (Some "1970-01-01T00:00:00.005Z")
        (Some "first body") None.

Definition itemB2 : rss_item :=
  mkRss (Some "Two") (Some "https://x/2") None None (Some "second body").

(** Feed A is unreachable, feed B delivers two items, any other URL is an
    empty feed. *)
Definition net (u : string) : outcome (list rss_item) :=
  if String.eqb u feedA then Thrown (Error "getaddrinfo ENOTFOUND a.example")
  else if String.eqb u feedB then Returned [itemB1; itemB2]
  else Returned [].

(** A summarizer that passes the body through. *)
Definition passthrough (body : string) : outcome string := Returned body.

(** A summarizer that rejects every call. *)
Definition broken (body : string) : outcome string :=
  Thrown (Error "summarizer unavailable").

(** The clock reads 30 ms, 31 ms, ... after the epoch. *)
Definition ticking (n : nat) : string := iso_of_ms (30 + n).

Definition env : Env := mkEnv net passthrough ms_of_iso ticking.
Definition env_broken : Env := mkEnv net broken ms_of_iso ticking.

Definition srcA : source := mkSource 1 "A" feedA "rss" true.
Definition srcB : source := mkSource 2 "B" feedB "rss" true.
Definition srcJ : source := mkSource 3 "J" "https://j.example/api" "json" true.

(** A second registration of feed B. *)
Definition srcB' : source := mkSource 4 "B again" feedB "rss" true.

Definition art (link : string) (published : option string) (ms : nat) : article :=
  mkArticle 2 "B" (Some "t") (Some link) published "s" (iso_of_ms ms).

(** A stored article without [published_at], followed by one published
    10 ms after the epoch. *)
Definition undated_then_dated : list article :=
  [art "https://x/u" None 20; art "https://x/d" (Some (iso_of_ms 10)) 21].

Definition idle (srcs : disk_file (list source)) (arts : disk_file (list article))
  : proc :=
  mkProc false srcs arts 0 [].

Definition busy : proc :=
  mkProc true (Stored [srcB]) (Stored [art "https://x/1" None 10]) 0 [].

(** 201 stored articles, fetched at 1 ms, 2 ms, ..., 201 ms. *)
Definition crowded : list article :=
  map (fun n => art (pad3 n) None n) (seq 1 201).

(** The millisecond clock: 1000, 1001, ... *)
Definition ms_clock (n : nat) : Z := (1000 + Z.of_nat n)%Z.

(** A millisecond clock that stands still. *)
Definition frozen_clock (n : nat) : Z := 1000%Z.

Fixpoint digits_value (acc : Z) (s : string) : Z :=
  match s with
  | EmptyString => acc
  | String c rest =>
      match digit_value c with
      | Some d => digits_value (10 * acc + Z.of_nat d) rest
      | None => acc
      end
  end.

(** [parseInt] on the strings of the examples: a string that starts with
    a decimal digit gives the number its leading digits spell, the other
    strings used here give [NaN]. *)
Definition parseInt (s : string) : option Z :=
  match s with
  | EmptyString => None
  | String c _ =>
      match digit_value c with
      | Some _ => Some (digits_value 0 s)
      | None => None
      end
  end.

(** A summarizer that rejects the body of the second item of feed B. *)
Definition picky (body : string) : outcome string :=
  if String.eqb body "second body" then Thrown (Error "summarizer unavailable")
  else Returned body.

Definition env_picky : Env := mkEnv net picky ms_of_iso ticking.

Definition formC : source_form :=
  mkForm (Some "C") (Some "https://c.example/rss") (Some "rss").

End Demo.

(* ================================================================== *)
(** ** Facts about [sort] *)

Section SortFacts.

Context {A : Type}.
Variable comparefn : A -> A -> option Z.

Lemma sort_insert_Permutation (x : A) (l : list A) :
  Permutation (x :: l) (sort_insert comparefn x l).
Proof.
  induction l as [|y rest IH]; cbn.
  - reflexivity.
  - destruct (0 <? SortCompare comparefn x y)%Z.
    + rewrite perm_swap. now constructor.
    + reflexivity.
Qed.

Lemma sort_Permutation (l : list A) : Permutation l (sort comparefn l).
Proof.
  induction l as [|x rest IH]; cbn.
  - constructor.
  - rewrite <- sort_insert_Permutation. now constructor.
Qed.

Lemma sort_length (l : list A) : List.length (sort comparefn l) = List.length l.
Proof. symmetry. apply Permutation_length, sort_Permutation. Qed.

Lemma sort_In (l : list A) (x : A) : In x (sort comparefn l) <-> In x l.
Proof.
  split; apply Permutation_in;
    [symmetry|]; apply sort_Permutation.
Qed.

Variable key : A -> Z.

Lemma sort_insert_sorted (x : A) (l : list A) :
  descending_by comparefn key (x :: l) ->
  StronglySorted (key_ge key) l ->
  StronglySorted (key_ge key) (sort_insert comparefn x l).
Proof.
  induction l as [|y rest IH]; intros Hd Hs; cbn.
  - repeat constructor.
  - rewrite (Hd x y) by (cbn; auto).
    inversion Hs as [|? ? Hrest Hall]; subst.
    destruct (key x <? key y)%Z eqn:E.
    + apply Z.ltb_lt in E. constructor.
      * apply IH; [|assumption].
        intros a b Ha Hb. apply Hd; cbn in *; tauto.
      * eapply Permutation_Forall; [apply sort_insert_Permutation|].
        constructor; [unfold key_ge; lia | assumption].
    + apply Z.ltb_ge in E. constructor; [assumption|].
      constructor; [exact E|].
      eapply Forall_impl; [|exact Hall].
      unfold key_ge. intros; lia.
Qed.

Lemma sort_sorted (l : list A) :
  descending_by comparefn key l -> StronglySorted (key_ge key) (sort comparefn l).
Proof.
  induction l as [|x rest IH]; intros Hd; cbn.
  - constructor.
  - apply sort_insert_sorted.
    + intros a b Ha Hb. apply Hd.
      * destruct Ha as [<-|Ha]; [now left | right; now apply sort_In].
      * destruct Hb as [<-|Hb]; [now left | right; now apply sort_In].
    + apply IH. intros a b Ha Hb. apply Hd; now right.
Qed.

Lemma sort_insert_stable (t : Z) (x : A) (l : list A) :
  descending_by comparefn key (x :: l) ->
  with_key key t (sort_insert comparefn x l) = with_key key t (x :: l).
Proof.
  unfold with_key.
  induction l as [|y rest IH]; intros Hd; cbn.
  - reflexivity.
  - rewrite (Hd x y) by (cbn; auto).
    destruct (key x <? key y)%Z eqn:E; [|reflexivity].
    apply Z.ltb_lt in E. cbn.
    rewrite IH.
    + cbn. destruct (key y =? t)%Z eqn:Ey, (key x =? t)%Z eqn:Ex; try reflexivity.
      apply Z.eqb_eq in Ey, Ex. lia.
    + intros a b Ha Hb. apply Hd; cbn in *; tauto.
Qed.

Lemma sort_stable (t : Z) (l : list A) :
  descending_by comparefn key l -> with_key key t (sort comparefn l) = with_key key t l.
Proof.
  induction l as [|x rest IH]; intros Hd.
  - reflexivity.
  - change (sort comparefn (x :: rest))
      with (sort_insert comparefn x (sort comparefn rest)).
    rewrite sort_insert_stable.
    + unfold with_key in *. cbn. rewrite IH; [reflexivity|].
      intros a b Ha Hb. apply Hd; now right.
    + intros a b Ha Hb. apply Hd.
      * destruct Ha as [<-|Ha]; [now left | right; now apply sort_In].
      * destruct Hb as [<-|Hb]; [now left | right; now apply sort_In].
Qed.

End SortFacts.

(* ================================================================== *)
(** ** Facts about the loops of the pass *)

Lemma strict_eq_true (x y : option string) : strict_eq x y = true <-> x = y.
Proof.
  destruct x as [a|], y as [b|]; cbn; try (split; congruence).
  rewrite String.eqb_eq. split; congruence.
Qed.

Lemma find_link_None (l : option string) (arts : list article) :
  find (fun a => strict_eq (a_link a) l) arts = None <->
  ~ In l (map a_link arts).
Proof.
  induction arts as [|a rest IH]; cbn.
  - tauto.
  - destruct (strict_eq (a_link a) l) eqn:E.
    + apply strict_eq_true in E. split; [discriminate | tauto].
    + assert (a_link a <> l) by (intros H; apply strict_eq_true in H; congruence).
      tauto.
Qed.

Lemma find_link_Some (l : option string) (arts : list article) :
  In l (map a_link arts) ->
  exists a, find (fun a => strict_eq (a_link a) l) arts = Some a.
Proof.
  intros Hin.
  destruct (find (fun a => strict_eq (a_link a) l) arts) as [a|] eqn:E.
  - now exists a.
  - apply find_link_None in E. contradiction.
Qed.

Section ForOf.

Context {S X : Type}.
Variable R : S -> S -> Prop.
Hypothesis R_refl : forall s, R s s.
Hypothesis R_trans : forall s1 s2 s3, R s1 s2 -> R s2 s3 -> R s1 s3.

(** A relation every iteration establishes holds across the loop, however
    the loop is left. *)
Lemma for_of_preserves (body : X -> M S unit) (xs : list X) :
  (forall x s r s', In x xs -> body x s = (r, s') -> R s s') ->
  forall s r s', for_of xs body s = (r, s') -> R s s'.
Proof.
  induction xs as [|x rest IH]; intros Hbody s r s' Hrun; cbn in Hrun.
  - inversion Hrun; subst. apply R_refl.
  - unfold bind in Hrun.
    destruct (body x s) as [[[]|e] s1] eqn:E1.
    + apply R_trans with s1.
      * eapply Hbody; [now left | exact E1].
      * eapply IH; [|exact Hrun]. intros; eapply Hbody; [right|]; eassumption.
    + inversion Hrun; subst. eapply Hbody; [now left | exact E1].
Qed.

(** A loop whose iterations all return normally returns normally. *)
Lemma for_of_returns (body : X -> M S unit) (xs : list X) :
  (forall x s, In x xs -> exists s', body x s = (Returned tt, s')) ->
  forall s, exists s', for_of xs body s = (Returned tt, s').
Proof.
  induction xs as [|x rest IH]; intros Hbody s; cbn.
  - now exists s.
  - unfold bind. destruct (Hbody x s) as [s1 ->]; [now left|].
    apply IH. intros; apply Hbody; now right.
Qed.

End ForOf.

Section PassFacts.

Variable env : Env.

Lemma grows_refl st : grows st st.
Proof.
  repeat split.
  - exists []. now rewrite app_nil_r.
  - exists []. rewrite app_nil_r. cbn. auto.
Qed.

Lemma grows_trans st1 st2 st3 : grows st1 st2 -> grows st2 st3 -> grows st1 st3.
Proof.
  intros (R1 & S1 & A1 & [ev1 T1] & add1 & E1 & N1 & D1)
         (R2 & S2 & A2 & [ev2 T2] & add2 & E2 & N2 & D2).
  repeat split; try congruence.
  { exists (ev1 ++ ev2). rewrite T2, T1. now rewrite app_assoc. }
  exists (add1 ++ add2). repeat split.
  - rewrite E2, E1. now rewrite app_assoc.
  - rewrite N2, N1, length_app. lia.
  - auto.
Qed.

(** The three ways one iteration of the item loop can go. *)
Lemma ingest_item_seen src it p loc :
  In (it_link it) (map a_link (articles loc)) ->
  ingest_item env src it (p, loc) = (Returned tt, (p, loc)).
Proof.
  intros Hin. destruct (find_link_Some _ _ Hin) as [a Ha].
  unfold ingest_item, bind, get_articles. cbn. now rewrite Ha.
Qed.

Lemma ingest_item_admitted src it p loc summary :
  ~ In (it_link it) (map a_link (articles loc)) ->
  summarize env (it_content it) = Returned summary ->
  ingest_item env src it (p, loc) =
    (Returned tt,
     (mkProc (isRunning p) (sourcesFile p) (articlesFile p) (S (dateReads p))
             (trace p ++ [Summarize (it_content it)]),
      mkLocals
        (articles loc ++
           [mkArticle (src_id src) (src_name src) (it_title it) (it_link it)
                      (it_published it) summary (clock env (dateReads p))])
        (S (newCount loc)))).
Proof.
  intros Hnew Hsum. apply find_link_None in Hnew.
  unfold ingest_item, bind, get_articles. cbn. rewrite Hnew.
  unfold liftP, ai_summarize, bind, emit. cbn. rewrite Hsum. reflexivity.
Qed.

Lemma ingest_item_thrown src it p loc e :
  ~ In (it_link it) (map a_link (articles loc)) ->
  summarize env (it_content it) = Thrown e ->
  ingest_item env src it (p, loc) =
    (Thrown e,
     (mkProc (isRunning p) (sourcesFile p) (articlesFile p) (dateReads p)
             (trace p ++ [Summarize (it_content it)]),
      loc)).
Proof.
  intros Hnew Hsum. apply find_link_None in Hnew.
  unfold ingest_item, bind, get_articles. cbn. rewrite Hnew.
  unfold liftP, ai_summarize, bind, emit. cbn. rewrite Hsum. reflexivity.
Qed.

Lemma In_dec_link (l : option string) (arts : list article) :
  {In l (map a_link arts)} + {~ In l (map a_link arts)}.
Proof.
  apply in_dec. decide equality. apply string_dec.
Qed.

Lemma ingest_item_grows src it st r st' :
  ingest_item env src it st = (r, st') -> grows st st'.
Proof.
  destruct st as [p loc]. intros Hrun.
  destruct (In_dec_link (it_link it) (articles loc)) as [Hin|Hnew].
  - rewrite ingest_item_seen in Hrun by assumption.
    inversion Hrun; subst. apply grows_refl.
  - destruct (summarize env (it_content it)) as [summary|e] eqn:Hsum.
    + rewrite (ingest_item_admitted _ _ _ _ Hnew Hsum) in Hrun.
      inversion Hrun; subst. repeat split; [now eexists|]. cbn.
      eexists [_]. repeat split.
      * cbn. lia.
      * intros Hnd. rewrite map_app. cbn.
        apply NoDup_app; [assumption | repeat constructor; auto |].
        intros x Hx [<-|[]]. contradiction.
    + rewrite (ingest_item_thrown _ _ _ _ Hnew Hsum) in Hrun.
      inversion Hrun; subst. repeat split; [now eexists|]. cbn.
      exists []. rewrite app_nil_r. cbn. auto.
Qed.

Lemma for_items_grows src items st r st' :
  for_of items (ingest_item env src) st = (r, st') -> grows st st'.
Proof.
  apply for_of_preserves with (R := grows).
  - apply grows_refl.
  - apply grows_trans.
  - intros x s r0 s0 _. apply ingest_item_grows.
Qed.

(** [fetchSource] on a source that is not of type ['rss'], and on one that
    is. *)
Lemma fetchSource_other_type src p :
  String.eqb (src_type src) "rss" = false ->
  fetchSource env src p = (Returned [], p).
Proof.
  intros Hty. unfold fetchSource. now rewrite Hty.
Qed.

Lemma fetchSource_rss src p :
  String.eqb (src_type src) "rss" = true ->
  fetchSource env src p =
    (match parseURL env (src_url src) with
     | Returned feed => Returned (map to_item feed)
     | Thrown e => Thrown e
     end,
     logged p [HttpGet (src_url src)]).
Proof.
  intros Hty. unfold fetchSource. rewrite Hty.
  unfold bind, parser_parseURL, bind, emit. cbn.
  now destruct (parseURL env (src_url src)).
Qed.

Lemma fetchSource_fetched src p :
  exists evs,
    fetchSource env src p = (fetched env src, logged p evs) /\ quiet evs.
Proof.
  unfold fetched.
  destruct (String.eqb (src_type src) "rss") eqn:Hty.
  - rewrite !fetchSource_rss by assumption. eexists. split; [reflexivity|].
    intros line [H|[]]. discriminate.
  - rewrite !fetchSource_other_type by assumption.
    exists []. split; [|intros line []].
    unfold logged. rewrite app_nil_r. now destruct p.
Qed.

Lemma logged_logged p evs1 evs2 :
  logged (logged p evs1) evs2 = logged p (evs1 ++ evs2).
Proof. unfold logged; cbn. now rewrite app_assoc. Qed.

(** One iteration of the source loop, unfolded down to the item loop. *)
Lemma ingest_source_unfold src p loc :
  exists evs,
    quiet evs /\
    fetchSource env src (logged p [ConsoleLog (fetching_line src)])
      = (fetched env src, logged p (ConsoleLog (fetching_line src) :: evs)) /\
    ingest_source env src (p, loc) =
      match fetched env src with
      | Thrown e =>
          (Returned tt,
           (logged p (ConsoleLog (fetching_line src) :: evs
                      ++ [ConsoleError (failure_line src e)]), loc))
      | Returned items =>
          match for_of items (ingest_item env src)
                  (logged p (ConsoleLog (fetching_line src) :: evs), loc) with
          | (Returned u, st') => (Returned u, st')
          | (Thrown e, (p', loc')) =>
              (Returned tt, (logged p' [ConsoleError (failure_line src e)], loc'))
          end
      end.
Proof.
  destruct (fetchSource_fetched src (logged p [ConsoleLog (fetching_line src)]))
    as (evs & Hf & Hq).
  rewrite logged_logged in Hf. cbn [app] in Hf.
  exists evs. split; [exact Hq|]. split; [exact Hf|].
  unfold ingest_source, try_catch, bind, liftP, console_log, console_error, emit.
  cbn [fst snd].
  change (mkProc (isRunning p) (sourcesFile p) (articlesFile p) (dateReads p)
            (trace p ++ [ConsoleLog ("Fetching from " ++ src_name src ++ "...")%string]))
    with (logged p [ConsoleLog (fetching_line src)]).
  rewrite Hf. cbn [fst snd].
  destruct (fetched env src) as [items|e].
  - destruct (for_of items (ingest_item env src) _) as [[u|e] [p' loc']];
      reflexivity.
  - cbn [fst snd]. unfold logged, failure_line.
    cbn [isRunning sourcesFile articlesFile dateReads trace].
    now rewrite <- app_assoc.
Qed.

Lemma ingest_source_returns src st :
  exists st', ingest_source env src st = (Returned tt, st').
Proof.
  destruct st as [p loc].
  destruct (ingest_source_unfold src p loc) as (evs & _ & _ & ->).
  destruct (fetched env src) as [items|e]; [|now eexists].
  destruct (for_of items (ingest_item env src) _) as [[[]|e] [p' loc']];
    now eexists.
Qed.

Lemma grows_logged p loc evs : grows (p, loc) (logged p evs, loc).
Proof.
  repeat split; [now exists evs|].
  exists []. cbn. rewrite app_nil_r. auto.
Qed.

Lemma ingest_source_grows src st r st' :
  ingest_source env src st = (r, st') -> grows st st'.
Proof.
  destruct st as [p loc].
  destruct (ingest_source_unfold src p loc) as (evs & _ & _ & ->).
  destruct (fetched env src) as [items|e].
  - destruct (for_of items (ingest_item env src) _) as [[u|e] [p' loc']] eqn:E;
      intros Hrun; inversion Hrun; subst;
      apply for_items_grows in E;
      (eapply grows_trans; [apply grows_logged|]).
    + exact E.
    + eapply grows_trans; [exact E | apply grows_logged].
  - intros Hrun; inversion Hrun; subst. apply grows_logged.
Qed.

Lemma for_sources_grows srcs st r st' :
  for_of srcs (ingest_source env) st = (r, st') -> grows st st'.
Proof.
  apply for_of_preserves with (R := grows).
  - apply grows_refl.
  - apply grows_trans.
  - intros x s r0 s0 _. apply ingest_source_grows.
Qed.

Lemma for_sources_returns srcs st :
  exists st', for_of srcs (ingest_source env) st = (Returned tt, st').
Proof.
  apply for_of_returns. intros; apply ingest_source_returns.
Qed.

(** A pass whose two reads succeed: the result and the final process in
    terms of what the source loop leaves behind. *)
Lemma fetchArticles_pass p srcs arts p1 loc1 :
  isRunning p = false ->
  sourcesFile p = Stored srcs ->
  articlesFile p = Stored arts ->
  for_of (filter src_enabled srcs) (ingest_source env)
         (started p, mkLocals arts 0) = (Returned tt, (p1, loc1)) ->
  let kept := keep_most_recent env MAX_ARTICLES (articles loc1) in
  fetchArticles env p =
    (Returned (mkResult true (fetched_message (newCount loc1) (List.length kept))),
     completed p1 kept (newCount loc1)).
Proof.
  intros Hidle Hsrc Hart Hloop kept.
  unfold fetchArticles. rewrite Hidle.
  unfold bind at 1. cbn [set_isRunning].
  unfold bind at 1. unfold console_log at 1, emit at 1.
  unfold try_finally, try_catch, pass_body.
  unfold bind at 1. unfold read_sources, bind at 1, emit at 1.
  cbn [sourcesFile articlesFile isRunning dateReads trace].
  rewrite Hsrc. cbn [parse_file].
  unfold bind at 1. unfold read_articles, bind at 1, emit at 1.
  cbn [sourcesFile articlesFile isRunning dateReads trace].
  rewrite Hart. cbn [parse_file].
  unfold with_locals. unfold bind at 1.
  rewrite <- !app_assoc. cbn [app].
  rewrite <- Hsrc, <- Hart.
  change (mkProc true (sourcesFile p) (articlesFile p) (dateReads p)
            (trace p ++ [ConsoleLog "Starting manual fetch...";
                         FsRead sourcesPath; FsRead articlesPath]))
    with (started p).
  rewrite Hloop.
  unfold bind, get_articles, set_articles, get_newCount, liftP, write_articles,
    console_log, emit, bind, set_isRunning, ret, completed.
  cbn [fst snd articles newCount sourcesFile articlesFile isRunning dateReads trace].
  rewrite <- app_assoc. reflexivity.
Qed.

(** A pass one of whose two reads fails. *)
Lemma fetchArticles_setup_failure p e :
  isRunning p = false ->
  parse_file sourcesPath (sourcesFile p) = Thrown e \/
  (exists srcs, sourcesFile p = Stored srcs /\
                parse_file articlesPath (articlesFile p) = Thrown e) ->
  exists evs,
    fetchArticles env p =
      (Returned (mkResult false (e_message e)),
       logged p (ConsoleLog "Starting manual fetch..." :: evs)).
Proof.
  intros Hidle Hfail.
  unfold fetchArticles. rewrite Hidle.
  unfold bind at 1. cbn [set_isRunning].
  unfold bind at 1. unfold console_log at 1, emit at 1.
  unfold try_finally, try_catch, pass_body.
  unfold bind at 1. unfold read_sources, bind at 1, emit at 1.
  cbn [sourcesFile articlesFile isRunning dateReads trace].
  destruct Hfail as [Hs | (srcs & Hs & Ha)].
  - rewrite Hs. unfold bind, console_error, emit, set_isRunning, ret, logged.
    cbn [sourcesFile articlesFile isRunning dateReads trace].
    rewrite <- Hidle, <- !app_assoc. eexists. reflexivity.
  - rewrite Hs. cbn [parse_file].
    unfold bind at 1. unfold read_articles, bind at 1, emit at 1.
    cbn [sourcesFile articlesFile isRunning dateReads trace].
    rewrite Ha. unfold bind, console_error, emit, set_isRunning, ret, logged.
    cbn [sourcesFile articlesFile isRunning dateReads trace].
    rewrite <- Hidle, <- Hs, <- !app_assoc. eexists. reflexivity.
Qed.

(** Either one of the two files cannot be read, or both hold a list. *)
Lemma files_readable_dec (p : proc) :
  (unreadable (sourcesFile p) \/ unreadable (articlesFile p)) \/
  (exists srcs arts, sourcesFile p = Stored srcs /\ articlesFile p = Stored arts).
Proof.
  destruct (sourcesFile p) as [|c|srcs]; cbn; try tauto.
  destruct (articlesFile p) as [|c|arts]; cbn; try tauto.
  right. now exists srcs, arts.
Qed.

Lemma unreadable_Thrown {A} (path : string) (f : disk_file A) :
  unreadable f -> exists e, parse_file path f = Thrown e.
Proof.
  destruct f; cbn; intros H; [now eexists | now eexists | destruct H].
Qed.

(** A pass over a file that cannot be read reports the failure and leaves
    everything but the trace as it was. *)
Lemma fetchArticles_unreadable p :
  isRunning p = false ->
  unreadable (sourcesFile p) \/ unreadable (articlesFile p) ->
  exists e evs,
    fetchArticles env p =
      (Returned (mkResult false (e_message e)),
       logged p (ConsoleLog "Starting manual fetch..." :: evs)).
Proof.
  intros Hidle Hbad.
  destruct (sourcesFile p) as [|c|srcs] eqn:Hs.
  1, 2: eexists; apply fetchArticles_setup_failure;
        [assumption | left; rewrite Hs; reflexivity].
  destruct Hbad as [[]|Hbad].
  destruct (unreadable_Thrown articlesPath _ Hbad) as [e He].
  exists e. apply fetchArticles_setup_failure; [assumption|].
  right. now exists srcs.
Qed.

(** Every call made while the guard is free: it returns a result object,
    starts by announcing the pass, leaves the source list alone and ends
    with the guard free again. *)
Lemma fetchArticles_idle p :
  isRunning p = false ->
  exists r p' evs,
    fetchArticles env p = (Returned r, p') /\
    isRunning p' = false /\
    sourcesFile p' = sourcesFile p /\
    trace p' = trace p ++ ConsoleLog "Starting manual fetch..." :: evs.
Proof.
  intros Hidle.
  destruct (files_readable_dec p) as [Hbad|(srcs & arts & Hs & Ha)].
  - destruct (fetchArticles_unreadable p Hidle Hbad) as (e & evs & ->).
    do 3 eexists. cbn. repeat split; eauto.
  - destruct (for_sources_returns (filter src_enabled srcs)
                (started p, mkLocals arts 0)) as [[p1 loc1] Hloop].
    rewrite (fetchArticles_pass p Hidle Hs Ha Hloop).
    apply for_sources_grows in Hloop.
    destruct Hloop as (_ & S1 & _ & [evs T1] & _). cbn in S1, T1.
    do 3 eexists. split; [reflexivity|]. split; [reflexivity|]. split.
    + cbn. congruence.
    + cbn. rewrite T1, <- !app_assoc. cbn. reflexivity.
Qed.

End PassFacts.

(* ================================================================== *)
(** ** The guard *)

(** C1. While a pass is running ([isRunning] is true), [fetchArticles]
    returns [{success: false, message: "Fetch already in progress"}] at
    once, and the process is exactly as before the call: the trace has no
    new entry (no file was read, no source fetched), and the source list
    and the article store are untouched. *)
Theorem fetchArticles_rejected_while_running (env : Env) (p : proc) :
  isRunning p = true ->
  fetchArticles env p =
    (Returned (mkResult false "Fetch already in progress"), p).
Proof.
  intros Hbusy. unfold fetchArticles. now rewrite Hbusy.
Qed.

Lemma fetchArticles_rejected_while_running_witness :
  fetchArticles Demo.env Demo.busy =
    (Returned (mkResult false "Fetch already in progress"), Demo.busy).
Proof.
  apply (fetchArticles_rejected_while_running Demo.env Demo.busy).
  reflexivity.
Defined.

(** C9. A call that finds the guard free always returns a result object
    (it never throws, whatever the adapters, the summarizer and the files
    do) and has [isRunning = false] when it returns; the next call is
    therefore not turned away: it starts a pass of its own. *)
Theorem guard_released_on_every_exit (env : Env) (p : proc) :
  isRunning p = false ->
  exists r p',
    fetchArticles env p = (Returned r, p') /\
    isRunning p' = false /\
    forall env', exists r' p'' evs,
      fetchArticles env' p' = (Returned r', p'') /\
      isRunning p'' = false /\
      trace p'' = trace p' ++ ConsoleLog "Starting manual fetch..." :: evs.
Proof.
  intros Hidle.
  destruct (fetchArticles_idle env p Hidle) as (r & p' & evs & Hrun & Hfree & _).
  exists r, p'. repeat split; try assumption.
  intros env'.
  destruct (fetchArticles_idle env' p' Hfree) as (r' & p'' & evs' & H1 & H2 & _ & H3).
  now exists r', p'', evs'.
Qed.

Lemma guard_released_on_every_exit_witness :
  exists r p',
    fetchArticles Demo.env_broken
      (Demo.idle (Stored [Demo.srcA; Demo.srcB]) (Malformed "Unexpected token")) =
      (Returned r, p') /\
    isRunning p' = false /\
    forall env', exists r' p'' evs,
      fetchArticles env' p' = (Returned r', p'') /\
      isRunning p'' = false /\
      trace p'' = trace p' ++ ConsoleLog "Starting manual fetch..." :: evs.
Proof.
  apply (guard_released_on_every_exit Demo.env_broken
           (Demo.idle (Stored [Demo.srcA; Demo.srcB]) (Malformed "Unexpected token"))).
  reflexivity.
Defined.

(* ================================================================== *)
(** ** Sources of another type *)

(** C10. For a source whose [type] is not ['rss'], [fetchSource] resolves
    to the empty array without touching the process (no request is made,
    nothing is thrown); its turn in the source loop therefore only prints
    the "Fetching from" line: [articles] and [newCount] are as before and
    no "Error processing" line is printed. *)
Theorem other_source_type_fetches_nothing (env : Env) (src : source) :
  src_type src <> "rss" ->
  (forall p, fetchSource env src p = (Returned [], p)) /\
  (forall p loc,
     ingest_source env src (p, loc) =
       (Returned tt, (logged p [ConsoleLog (fetching_line src)], loc))).
Proof.
  intros Hty. apply String.eqb_neq in Hty.
  split; intros p.
  - now apply fetchSource_other_type.
  - intros loc.
    unfold ingest_source, try_catch, bind, liftP, console_log, emit.
    cbn [fst snd].
    rewrite fetchSource_other_type by assumption.
    reflexivity.
Qed.

Lemma other_source_type_fetches_nothing_witness :
  (forall p, fetchSource Demo.env Demo.srcJ p = (Returned [], p)) /\
  (forall p loc,
     ingest_source Demo.env Demo.srcJ (p, loc) =
       (Returned tt, (logged p [ConsoleLog (fetching_line Demo.srcJ)], loc))).
Proof.
  apply (other_source_type_fetches_nothing Demo.env Demo.srcJ).
  discriminate.
Defined.

(* ================================================================== *)
(** ** An article store that cannot be read *)

(** C7, the claim as stated, at a store file that is not JSON and at one
    that has disappeared: the pass does not go on from an empty store (it
    would report two new articles and write them), it fails. *)
Lemma unreadable_store_is_not_an_empty_store :
  ~ loads_as_empty_store Demo.env
      (Demo.idle (Stored [Demo.srcB]) (Malformed "Unexpected end of JSON input")) /\
  ~ loads_as_empty_store Demo.env (Demo.idle (Stored [Demo.srcB]) Absent).
Proof.
  split; intros [Hres _]; vm_compute in Hres; discriminate.
Qed.

(** A pass whose first read fails, and a pass whose second read fails,
    with every effect. *)
Lemma fetchArticles_list_read_fails (env : Env) (p : proc) (e : exn) :
  isRunning p = false ->
  parse_file sourcesPath (sourcesFile p) = Thrown e ->
  fetchArticles env p =
    (Returned (mkResult false (e_message e)),
     logged p [ConsoleLog "Starting manual fetch..."; FsRead sourcesPath;
               ConsoleError ("Error in fetch: " ++ e_message e)%string]).
Proof.
  intros Hidle Hs.
  unfold fetchArticles. rewrite Hidle.
  unfold bind at 1. cbn [set_isRunning].
  unfold bind at 1. unfold console_log at 1, emit at 1.
  unfold try_finally, try_catch, pass_body.
  unfold bind at 1. unfold read_sources, bind at 1, emit at 1.
  cbn [sourcesFile articlesFile isRunning dateReads trace].
  rewrite Hs. unfold bind, console_error, emit, set_isRunning, ret, logged.
  cbn [sourcesFile articlesFile isRunning dateReads trace].
  rewrite <- Hidle, <- !app_assoc. reflexivity.
Qed.

Lemma fetchArticles_store_read_fails
    (env : Env) (p : proc) (srcs : list source) (e : exn) :
  isRunning p = false ->
  sourcesFile p = Stored srcs ->
  parse_file articlesPath (articlesFile p) = Thrown e ->
  fetchArticles env p =
    (Returned (mkResult false (e_message e)),
     logged p [ConsoleLog "Starting manual fetch..."; FsRead sourcesPath;
               FsRead articlesPath;
               ConsoleError ("Error in fetch: " ++ e_message e)%string]).
Proof.
  intros Hidle Hs Ha.
  unfold fetchArticles. rewrite Hidle.
  unfold bind at 1. cbn [set_isRunning].
  unfold bind at 1. unfold console_log at 1, emit at 1.
  unfold try_finally, try_catch, pass_body.
  unfold bind at 1. unfold read_sources, bind at 1, emit at 1.
  cbn [sourcesFile articlesFile isRunning dateReads trace].
  rewrite Hs. cbn [parse_file].
  unfold bind at 1. unfold read_articles, bind at 1, emit at 1.
  cbn [sourcesFile articlesFile isRunning dateReads trace].
  rewrite Ha. unfold bind, console_error, emit, set_isRunning, ret, logged.
  cbn [sourcesFile articlesFile isRunning dateReads trace].
  rewrite <- Hidle, <- Hs, <- !app_assoc. reflexivity.
Qed.

(** The message of the error a read of [f] at [path] raises: the
    complaint of [JSON.parse] for a file that is not JSON, the ENOENT text
    for a missing file, where the path is [path] below some directory. *)
Lemma read_error_message {A} (path : string) (f : disk_file A) (e : exn) :
  parse_file path f = Thrown e ->
  (forall c, f = Malformed c -> e_message e = c) /\
  (f = Absent -> exists dir, e_message e = e_message (ENOENT (dir ++ path)%string)).
Proof.
  destruct f as [|c|v]; cbn; intros [= <-]; split; try discriminate.
  - intros _. now exists "".
  - now intros c' [= ->].
Qed.

(** C7, amended. A data file that is missing at start-up is created as
    the empty list; a file that exists is left as it is, corrupt or not.
    A pass that finds the article store missing or not JSON is not fatal,
    and does not go on either.  When the source list was read, the call
    returns [{success: false, message}] whose message is the message of
    the read error of the store (the complaint of [JSON.parse], or the
    ENOENT text naming the store's path), and all it has done is print the
    start line, read the two files and print the "Error in fetch" line
    with that message: no source is fetched, nothing is summarized or
    written, both files are as they were and the guard is free again.
    When the source list cannot be read either, the call fails one read
    earlier in the same way, with the message of that read error. *)
Theorem unreadable_store_fails_the_pass (env : Env) (p : proc) :
  isRunning p = false ->
  unreadable (articlesFile p) ->
  (forall srcs,
     sourcesFile p = Stored srcs ->
     exists msg,
       fetchArticles env p =
         (Returned (mkResult false msg),
          logged p [ConsoleLog "Starting manual fetch..."; FsRead sourcesPath;
                    FsRead articlesPath;
                    ConsoleError ("Error in fetch: " ++ msg)%string]) /\
       (forall c, articlesFile p = Malformed c -> msg = c) /\
       (articlesFile p = Absent ->
        exists dir, msg = e_message (ENOENT (dir ++ articlesPath)%string))) /\
  (unreadable (sourcesFile p) ->
   exists msg,
     fetchArticles env p =
       (Returned (mkResult false msg),
        logged p [ConsoleLog "Starting manual fetch..."; FsRead sourcesPath;
                  ConsoleError ("Error in fetch: " ++ msg)%string]) /\
     (forall c, sourcesFile p = Malformed c -> msg = c) /\
     (sourcesFile p = Absent ->
      exists dir, msg = e_message (ENOENT (dir ++ sourcesPath)%string))) /\
  sourcesFile (initialize_data_files p)
    = match sourcesFile p with Absent => Stored [] | f => f end /\
  articlesFile (initialize_data_files p)
    = match articlesFile p with Absent => Stored [] | f => f end.
Proof.
  intros Hidle Hbad. split; [|split; [|split]].
  3: cbn; now destruct (sourcesFile p).
  3: cbn; now destruct (articlesFile p).
  - intros srcs Hs.
    destruct (unreadable_Thrown articlesPath _ Hbad) as [e He].
    exists (e_message e). split.
    + now apply fetchArticles_store_read_fails with (srcs := srcs).
    + exact (read_error_message _ _ He).
  - intros Hlist.
    destruct (unreadable_Thrown sourcesPath _ Hlist) as [e He].
    exists (e_message e). split.
    + now apply fetchArticles_list_read_fails.
    + exact (read_error_message _ _ He).
Qed.

Lemma unreadable_store_fails_the_pass_witness :
  let p := Demo.idle (Stored [Demo.srcB]) (Malformed "Unexpected end of JSON input") in
  exists msg,
    fetchArticles Demo.env p =
      (Returned (mkResult false msg),
       logged p [ConsoleLog "Starting manual fetch..."; FsRead sourcesPath;
                 FsRead articlesPath;
                 ConsoleError ("Error in fetch: " ++ msg)%string]) /\
    (forall c, articlesFile p = Malformed c -> msg = c) /\
    (articlesFile p = Absent ->
     exists dir, msg = e_message (ENOENT (dir ++ articlesPath)%string)).
Proof.
  apply (proj1 (unreadable_store_fails_the_pass Demo.env
                  (Demo.idle (Stored [Demo.srcB])
                             (Malformed "Unexpected end of JSON input"))
                  eq_refl I) [Demo.srcB]).
  reflexivity.
Defined.

(* ================================================================== *)
(** ** The capacity step and the links *)

Section Capacity.

Variable env : Env.

Lemma keep_most_recent_length max arts :
  List.length (keep_most_recent env max arts) = Nat.min max (List.length arts).
Proof.
  unfold keep_most_recent, slice0.
  destruct (max <? List.length arts)%nat eqn:E.
  - apply Nat.ltb_lt in E. rewrite length_firstn, sort_length. reflexivity.
  - apply Nat.ltb_ge in E. lia.
Qed.

Lemma keep_most_recent_small max arts :
  List.length arts <= max -> keep_most_recent env max arts = arts.
Proof.
  intros Hle. unfold keep_most_recent.
  apply Nat.ltb_ge in Hle. now rewrite Hle.
Qed.

Lemma NoDup_firstn {A} (n : nat) (l : list A) : NoDup l -> NoDup (firstn n l).
Proof.
  intros Hnd. rewrite <- (firstn_skipn n l) in Hnd.
  now apply NoDup_app_remove_r in Hnd.
Qed.

Lemma keep_most_recent_NoDup max arts :
  NoDup (map a_link arts) -> NoDup (map a_link (keep_most_recent env max arts)).
Proof.
  intros Hnd. unfold keep_most_recent, slice0.
  destruct (max <? List.length arts)%nat; [|assumption].
  rewrite <- firstn_map. apply NoDup_firstn.
  eapply Permutation_NoDup; [|exact Hnd].
  apply Permutation_map, sort_Permutation.
Qed.

(** What a pass with two readable files comes to: the articles the
    source loop appended, counted, then the capacity step, then the write. *)
Lemma fetchArticles_pass_summary p srcs arts :
  isRunning p = false ->
  sourcesFile p = Stored srcs ->
  articlesFile p = Stored arts ->
  exists p1 added,
    for_of (filter src_enabled srcs) (ingest_source env)
           (started p, mkLocals arts 0)
      = (Returned tt, (p1, mkLocals (arts ++ added) (List.length added))) /\
    fetchArticles env p =
      (Returned (mkResult true
                   (fetched_message (List.length added)
                      (List.length (keep_most_recent env MAX_ARTICLES (arts ++ added))))),
       completed p1 (keep_most_recent env MAX_ARTICLES (arts ++ added))
                 (List.length added)) /\
    sourcesFile p1 = Stored srcs /\
    (NoDup (map a_link arts) -> NoDup (map a_link (arts ++ added))).
Proof.
  intros Hidle Hs Ha.
  destruct (for_sources_returns env (filter src_enabled srcs)
              (started p, mkLocals arts 0)) as [[p1 loc1] Hloop].
  pose proof (fetchArticles_pass env p Hidle Hs Ha Hloop) as Hrun.
  pose proof (for_sources_grows _ _ _ Hloop) as (_ & S1 & _ & _ & added & E & N & D).
  cbn in S1, E, N, D.
  destruct loc1 as [arts1 n1]; cbn in *. subst arts1 n1.
  exists p1, added. repeat split; try assumption. congruence.
Qed.

(** A call that reports success was a pass with two readable files. *)
Lemma fetchArticles_success_inv p r p' :
  isRunning p = false ->
  fetchArticles env p = (Returned r, p') ->
  success r = true ->
  exists srcs stored,
    sourcesFile p = Stored srcs /\
    sourcesFile p' = Stored srcs /\
    articlesFile p' = Stored stored /\
    List.length stored <= MAX_ARTICLES /\
    isRunning p' = false.
Proof.
  intros Hidle Hrun Hok.
  destruct (files_readable_dec p) as [Hbad|(srcs & arts & Hs & Ha)].
  - destruct (fetchArticles_unreadable env p Hidle Hbad) as (e & evs & Hf).
    rewrite Hf in Hrun. inversion Hrun; subst. discriminate.
  - destruct (fetchArticles_pass_summary p Hidle Hs Ha)
      as (p1 & added & _ & Hf & Hs1 & _).
    rewrite Hf in Hrun. inversion Hrun; subst.
    exists srcs. eexists. cbn. repeat split; try reflexivity; try assumption.
    rewrite keep_most_recent_length. lia.
Qed.

End Capacity.

(* ================================================================== *)
(** ** Deduplication by link *)

(** C2. An item whose link equals the link of an article of the
    accumulated array (the loaded store and everything pushed so far in
    this pass, from any source) is skipped: [articles] and [newCount] are
    as before and the summarizer is not called.  A pass appends the
    admitted articles to the loaded store and reports their number as the
    new count; if the links of the store were pairwise distinct, so are
    those of the merged array, and whatever way the call ends the store it
    leaves on disk has pairwise distinct links. *)
Theorem links_stay_distinct (env : Env) (p : proc) (arts : list article) :
  articlesFile p = Stored arts ->
  NoDup (map a_link arts) ->
  (forall src it q loc,
     In (it_link it) (map a_link (articles loc)) ->
     ingest_item env src it (q, loc) = (Returned tt, (q, loc))) /\
  (forall srcs,
     isRunning p = false -> sourcesFile p = Stored srcs ->
     exists p1 added,
       fetchArticles env p =
         (Returned (mkResult true
                      (fetched_message (List.length added)
                         (List.length
                            (keep_most_recent env MAX_ARTICLES (arts ++ added))))),
          completed p1 (keep_most_recent env MAX_ARTICLES (arts ++ added))
                    (List.length added)) /\
       NoDup (map a_link (arts ++ added))) /\
  (exists arts',
     articlesFile (snd (fetchArticles env p)) = Stored arts' /\
     NoDup (map a_link arts')).
Proof.
  intros Ha Hnd. split; [|split].
  - intros src it q loc. apply ingest_item_seen.
  - intros srcs Hidle Hs.
    destruct (fetchArticles_pass_summary env p Hidle Hs Ha)
      as (p1 & added & _ & Hrun & _ & Hd).
    exists p1, added. split; [exact Hrun | auto].
  - destruct (isRunning p) eqn:Hrunning.
    + rewrite fetchArticles_rejected_while_running by assumption.
      exists arts. now split.
    + destruct (files_readable_dec p) as [Hbad|(srcs & arts0 & Hs & Ha0)].
      * destruct (fetchArticles_unreadable env p Hrunning Hbad) as (e & evs & ->).
        exists arts. now split.
      * destruct (fetchArticles_pass_summary env p Hrunning Hs Ha)
          as (p1 & added & _ & -> & _ & Hd).
        eexists. split; [reflexivity|].
        apply keep_most_recent_NoDup. auto.
Qed.

(** The scenario of the specification: the store holds [https://x/1]; the
    feed delivers [https://x/1] and [https://x/2]; one article is new and
    the store has two. *)
Example dedup_scenario :
  fst (fetchArticles Demo.env
         (Demo.idle (Stored [Demo.srcB]) (Stored [Demo.art "https://x/1" None 10])))
    = Returned (mkResult true "Fetched 1 new articles. Total: 2") /\
  option_map (map a_link)
    (match articlesFile
             (snd (fetchArticles Demo.env
                     (Demo.idle (Stored [Demo.srcB])
                                (Stored [Demo.art "https://x/1" None 10])))) with
     | Stored v => Some v
     | _ => None
     end)
    = Some [Some "https://x/1"; Some "https://x/2"].
Proof. split; reflexivity. Qed.

(** Two enabled sources deliver the same two links: the second source adds
    nothing. *)
Example dedup_across_sources :
  fst (fetchArticles Demo.env
         (Demo.idle (Stored [Demo.srcB; Demo.srcB']) (Stored [])))
    = Returned (mkResult true "Fetched 2 new articles. Total: 2").
Proof. reflexivity. Qed.

Lemma links_stay_distinct_witness :
  let p := Demo.idle (Stored [Demo.srcA; Demo.srcB])
                     (Stored [Demo.art "https://x/1" None 10]) in
  exists arts',
    articlesFile (snd (fetchArticles Demo.env p)) = Stored arts' /\
    NoDup (map a_link arts').
Proof.
  refine (proj2 (proj2 (links_stay_distinct Demo.env
            (Demo.idle (Stored [Demo.srcA; Demo.srcB])
                       (Stored [Demo.art "https://x/1" None 10]))
            (arts := [Demo.art "https://x/1" None 10]) _ _))).
  - reflexivity.
  - repeat constructor. cbn. tauto.
Defined.

(* ================================================================== *)
(** ** Capacity *)

Lemma StronglySorted_app_order {A} (R : A -> A -> Prop) (l1 l2 : list A) :
  StronglySorted R (l1 ++ l2) ->
  forall a b, In a l1 -> In b l2 -> R a b.
Proof.
  induction l1 as [|x rest IH]; intros Hs a b Ha Hb.
  - destruct Ha.
  - cbn in Hs. inversion Hs as [|? ? Hrest Hall]; subst.
    destruct Ha as [<-|Ha].
    + rewrite Forall_forall in Hall. apply Hall, in_or_app. now right.
    + now apply IH.
Qed.

Lemma by_fetched_at_descending (env : Env) (arts : list article) :
  (forall a, In a arts -> fetched_time env a <> None) ->
  descending_by (by_fetched_at_desc env) (fun a => ms (fetched_time env a)) arts.
Proof.
  intros Hvalid x y Hx Hy.
  unfold SortCompare, by_fetched_at_desc, Date_minus.
  pose proof (Hvalid x Hx) as Vx. pose proof (Hvalid y Hy) as Vy.
  unfold fetched_time in *.
  destruct (new_Date env (Some (a_fetched_at x))) as [tx|]; [|congruence].
  destruct (new_Date env (Some (a_fetched_at y))) as [ty|]; [|congruence].
  cbn. destruct (Z.ltb_spec 0 (ty - tx)), (Z.ltb_spec tx ty); lia.
Qed.

(** C3. Over an array of more than [MAX_ARTICLES] = 200 articles with
    valid [fetched_at] dates, the capacity step keeps exactly 200; the
    kept and the dropped articles together are the articles of the array;
    every dropped article was fetched no later than every kept one; and
    the articles of one and the same fetch time are, kept ones first, in
    the order they had.  An array of at most 200 articles is left as it
    is.  The store a completed pass has written holds at most 200
    articles. *)
Theorem capacity_keeps_the_most_recent (env : Env) :
  (forall arts,
     MAX_ARTICLES < List.length arts ->
     (forall a, In a arts -> fetched_time env a <> None) ->
     exists dropped,
       let kept := keep_most_recent env MAX_ARTICLES arts in
       List.length kept = MAX_ARTICLES /\
       Permutation arts (kept ++ dropped) /\
       (forall k d, In k kept -> In d dropped ->
                    not_later (fetched_time env d) (fetched_time env k)) /\
       (forall t, with_key (fun a => ms (fetched_time env a)) t (kept ++ dropped)
                  = with_key (fun a => ms (fetched_time env a)) t arts)) /\
  (forall arts,
     List.length arts <= MAX_ARTICLES ->
     keep_most_recent env MAX_ARTICLES arts = arts) /\
  (forall p r p',
     isRunning p = false ->
     fetchArticles env p = (Returned r, p') ->
     success r = true ->
     exists stored,
       articlesFile p' = Stored stored /\ List.length stored <= MAX_ARTICLES).
Proof.
  split; [|split].
  - intros arts Hlong Hvalid.
    pose proof (by_fetched_at_descending env arts Hvalid) as Hdesc.
    exists (skipn MAX_ARTICLES (sort (by_fetched_at_desc env) arts)).
    cbv zeta.
    assert (Hkept : keep_most_recent env MAX_ARTICLES arts
                    = firstn MAX_ARTICLES (sort (by_fetched_at_desc env) arts)).
    { unfold keep_most_recent, slice0.
      apply Nat.ltb_lt in Hlong. now rewrite Hlong. }
    rewrite Hkept, firstn_skipn.
    split; [|split; [|split]].
    + rewrite length_firstn, sort_length. lia.
    + apply sort_Permutation.
    + intros k d Hk Hd.
      pose proof (sort_sorted Hdesc) as Hsorted.
      rewrite <- (firstn_skipn MAX_ARTICLES) in Hsorted.
      pose proof (StronglySorted_app_order _ _ Hsorted k d Hk Hd) as Hord.
      unfold key_ge in Hord.
      assert (Vk : fetched_time env k <> None).
      { apply Hvalid. eapply sort_In.
        rewrite <- (firstn_skipn MAX_ARTICLES). apply in_or_app. left. exact Hk. }
      assert (Vd : fetched_time env d <> None).
      { apply Hvalid. eapply sort_In.
        rewrite <- (firstn_skipn MAX_ARTICLES). apply in_or_app. right. exact Hd. }
      destruct (fetched_time env k), (fetched_time env d); cbn in *; congruence.
    + intros t. now apply sort_stable.
  - intros arts. apply keep_most_recent_small.
  - intros p r p' Hidle Hrun Hok.
    destruct (fetchArticles_success_inv env p Hidle Hrun Hok)
      as (srcs & stored & _ & _ & Hst & Hlen & _).
    now exists stored.
Qed.

(** The scenario of the specification, with a bound of 2: articles
    fetched at 10, 20 and 30; the one fetched at 10 goes. *)
Example capacity_scenario :
  keep_most_recent Demo.env 2
    [Demo.art "https://x/1" None 10; Demo.art "https://x/2" None 20;
     Demo.art "https://x/3" None 30]
  = [Demo.art "https://x/3" None 30; Demo.art "https://x/2" None 20].
Proof. reflexivity. Qed.

Lemma capacity_keeps_the_most_recent_witness :
  exists dropped,
    let kept := keep_most_recent Demo.env MAX_ARTICLES Demo.crowded in
    List.length kept = MAX_ARTICLES /\
    Permutation Demo.crowded (kept ++ dropped) /\
    (forall k d, In k kept -> In d dropped ->
                 not_later (fetched_time Demo.env d) (fetched_time Demo.env k)) /\
    (forall t, with_key (fun a => ms (fetched_time Demo.env a)) t (kept ++ dropped)
               = with_key (fun a => ms (fetched_time Demo.env a)) t Demo.crowded).
Proof.
  apply (proj1 (capacity_keeps_the_most_recent Demo.env) Demo.crowded).
  - vm_compute. lia.
  - assert (Hall : forallb
                     (fun a => match fetched_time Demo.env a with
                               | Some _ => true
                               | None => false
                               end) Demo.crowded = true)
      by (vm_compute; reflexivity).
    intros a Ha. rewrite forallb_forall in Hall. specialize (Hall a Ha).
    destruct (fetched_time Demo.env a); [discriminate | discriminate].
Defined.

(* ================================================================== *)
(** ** Reading the feed *)

Lemma by_published_at_descending (env : Env) (arts : list article) :
  (forall a, In a arts -> published_time env a <> None) ->
  descending_by (by_published_at_desc env) (fun a => ms (published_time env a)) arts.
Proof.
  intros Hvalid x y Hx Hy.
  unfold SortCompare, by_published_at_desc, Date_minus.
  pose proof (Hvalid x Hx) as Vx. pose proof (Hvalid y Hy) as Vy.
  unfold published_time in *.
  destruct (new_Date env (a_published_at x)) as [tx|]; [|congruence].
  destruct (new_Date env (a_published_at y)) as [ty|]; [|congruence].
  cbn. destruct (Z.ltb_spec 0 (ty - tx)), (Z.ltb_spec tx ty); lia.
Qed.

(** C8, the claim as stated, at a store of two articles, the first
    without [published_at], the second with a valid one: the comparator
    yields [NaN] for the pair, the sort leaves the array as it is, and the
    undated article is served before the dated one. *)
Lemma feed_serves_undated_article_first :
  fst (api_feed Demo.env (Demo.idle (Stored []) (Stored Demo.undated_then_dated)))
    = Returned (Json200 Demo.undated_then_dated) /\
  ~ undated_sort_last Demo.env Demo.undated_then_dated.
Proof.
  split; [reflexivity|].
  intros Hlast.
  specialize (Hlast [] _ _ eq_refl eq_refl).
  inversion Hlast as [|? ? Hdated _]; subst.
  vm_compute in Hdated. discriminate.
Qed.

(** C8, amended. The feed read returns every stored article (a
    rearrangement of the stored array); when every article has a valid
    [published_at], the array served is in descending order of
    [published_at], articles of equal date in stored order. *)
Theorem feed_newest_first_when_dated (env : Env) (p : proc) (arts : list article) :
  articlesFile p = Stored arts ->
  exists out,
    api_feed env p = (Returned (Json200 out), logged p [FsRead articlesPath]) /\
    Permutation arts out /\
    ((forall a, In a arts -> published_time env a <> None) ->
     StronglySorted (key_ge (fun a => ms (published_time env a))) out /\
     forall t, with_key (fun a => ms (published_time env a)) t out
               = with_key (fun a => ms (published_time env a)) t arts).
Proof.
  intros Ha.
  exists (sort (by_published_at_desc env) arts). split; [|split].
  - unfold api_feed, try_catch, bind, read_articles, bind, emit, ret, logged.
    cbn [articlesFile]. rewrite Ha. reflexivity.
  - apply sort_Permutation.
  - intros Hvalid.
    pose proof (by_published_at_descending env arts Hvalid) as Hdesc.
    split.
    + now apply sort_sorted.
    + intros t. now apply sort_stable.
Qed.

Lemma feed_newest_first_when_dated_witness :
  let stored := [Demo.art "https://x/a" (Some (Demo.iso_of_ms 10)) 20;
                 Demo.art "https://x/b" (Some (Demo.iso_of_ms 30)) 21] in
  exists out,
    api_feed Demo.env (Demo.idle (Stored []) (Stored stored))
      = (Returned (Json200 out),
         logged (Demo.idle (Stored []) (Stored stored)) [FsRead articlesPath]) /\
    Permutation stored out /\
    StronglySorted (key_ge (fun a => ms (published_time Demo.env a))) out.
Proof.
  destruct (@feed_newest_first_when_dated Demo.env
              (Demo.idle (Stored [])
                 (Stored [Demo.art "https://x/a" (Some (Demo.iso_of_ms 10)) 20;
                          Demo.art "https://x/b" (Some (Demo.iso_of_ms 30)) 21]))
              _ eq_refl)
    as (out & Hrun & Hperm & Hsorted).
  exists out. split; [exact Hrun|]. split; [exact Hperm|].
  apply Hsorted.
  intros a [<-|[<-|[]]]; vm_compute; discriminate.
Defined.

(** The same read, run: the article published later comes first. *)
Example feed_scenario :
  fst (api_feed Demo.env
         (Demo.idle (Stored [])
            (Stored [Demo.art "https://x/a" (Some (Demo.iso_of_ms 10)) 20;
                     Demo.art "https://x/b" (Some (Demo.iso_of_ms 30)) 21])))
  = Returned (Json200 [Demo.art "https://x/b" (Some (Demo.iso_of_ms 30)) 21;
                       Demo.art "https://x/a" (Some (Demo.iso_of_ms 10)) 20]).
Proof. reflexivity. Qed.


(* ================================================================== *)
(** ** The source loop, source by source *)

Lemma quiet_app (evs1 evs2 : list event) :
  quiet evs1 -> quiet evs2 -> quiet (evs1 ++ evs2).
Proof.
  intros H1 H2 line Hin. apply in_app_or in Hin.
  destruct Hin; [eapply H1 | eapply H2]; eassumption.
Qed.

Section SourceLoop.

Variable env : Env.

(** Items whose links are all known leave everything as it is. *)
Lemma for_items_all_seen src items p loc :
  (forall it, In it items -> In (it_link it) (map a_link (articles loc))) ->
  for_of items (ingest_item env src) (p, loc) = (Returned tt, (p, loc)).
Proof.
  induction items as [|it rest IH]; intros Hseen; cbn.
  - reflexivity.
  - unfold bind. rewrite ingest_item_seen by (apply Hseen; now left).
    apply IH. intros; apply Hseen; now right.
Qed.

(** Items the summarizer answers for are all in [articles] afterwards. *)
Lemma for_items_ingested src items :
  (forall it, In it items -> exists s, summarize env (it_content it) = Returned s) ->
  forall p loc,
  exists p' loc' evs,
    for_of items (ingest_item env src) (p, loc) = (Returned tt, (p', loc')) /\
    (forall it, In it items -> In (it_link it) (map a_link (articles loc'))) /\
    trace p' = trace p ++ evs /\ quiet evs.
Proof.
  induction items as [|it rest IH]; intros Hsum p loc.
  - exists p, loc, []. cbn. rewrite app_nil_r.
    repeat split; try tauto. intros line [].
  - assert (Hrest : forall it', In it' rest ->
                    exists s, summarize env (it_content it') = Returned s)
      by (intros; apply Hsum; now right).
    cbn [for_of]. unfold bind.
    destruct (In_dec_link (it_link it) (articles loc)) as [Hin|Hnew].
    + rewrite ingest_item_seen by assumption.
      destruct (IH Hrest p loc) as (p' & loc' & evs & Hrun & Hlinks & Htr & Hq).
      exists p', loc', evs. repeat split; try assumption.
      intros it' [<-|Hin']; [|now apply Hlinks].
      apply for_items_grows in Hrun.
      destruct Hrun as (_ & _ & _ & _ & added & E & _). cbn in E.
      rewrite E, map_app. apply in_or_app. now left.
    + destruct (Hsum it (or_introl eq_refl)) as [s Hs].
      rewrite (@ingest_item_admitted env src it p loc s Hnew Hs).
      match goal with
      | |- context [for_of rest _ (?q, ?l)] =>
          destruct (IH Hrest q l) as (p' & loc' & evs & Hrun & Hlinks & Htr & Hq)
      end.
      exists p', loc', (Summarize (it_content it) :: evs).
      repeat split; try assumption.
      * intros it' [<-|Hin']; [|now apply Hlinks].
        apply for_items_grows in Hrun.
        destruct Hrun as (_ & _ & _ & _ & added & E & _). cbn in E.
        rewrite E, !map_app. apply in_or_app. left.
        apply in_or_app. right. now left.
      * rewrite Htr. cbn. now rewrite <- app_assoc.
      * intros line [H|H]; [discriminate | eapply Hq; eassumption].
Qed.

(** A source whose fetch resolves and whose items the summarizer answers
    for: all its items are in [articles] afterwards, and no error line is
    printed. *)
Lemma ingest_source_ok src items :
  fetched env src = Returned items ->
  (forall it, In it items -> exists s, summarize env (it_content it) = Returned s) ->
  forall p loc,
  exists p' loc' evs,
    ingest_source env src (p, loc) = (Returned tt, (p', loc')) /\
    (forall it, In it items -> In (it_link it) (map a_link (articles loc'))) /\
    trace p' = trace p ++ evs /\ quiet evs.
Proof.
  intros Hf Hsum p loc.
  destruct (ingest_source_unfold env src p loc) as (evs0 & Hq0 & _ & ->).
  rewrite Hf.
  destruct (for_items_ingested src items Hsum
              (logged p (ConsoleLog (fetching_line src) :: evs0)) loc)
    as (p' & loc' & evs & -> & Hlinks & Htr & Hq).
  exists p', loc', ((ConsoleLog (fetching_line src) :: evs0) ++ evs).
  repeat split; try assumption.
  - rewrite Htr. cbn [logged trace]. now rewrite <- app_assoc.
  - apply quiet_app; [|assumption].
    intros line [H|H]; [discriminate | eapply Hq0; eassumption].
Qed.

(** A source whose fetch is rejected: the error line is printed and the
    locals are as before. *)
Lemma ingest_source_failed src e :
  fetched env src = Thrown e ->
  forall p loc,
  exists evs,
    ingest_source env src (p, loc) =
      (Returned tt,
       (logged p (evs ++ [ConsoleError (failure_line src e)]), loc)).
Proof.
  intros Hf p loc.
  destruct (ingest_source_unfold env src p loc) as (evs0 & _ & _ & ->).
  rewrite Hf. now exists (ConsoleLog (fetching_line src) :: evs0).
Qed.

(** What the iteration of one source of the list establishes, and later
    growth keeps, holds when the loop is over. *)
Lemma for_sources_establishes (Q : proc * locals -> Prop) src srcs :
  (forall st st', grows st st' -> Q st -> Q st') ->
  In src srcs ->
  (forall st st', ingest_source env src st = (Returned tt, st') -> Q st') ->
  forall st st',
    for_of srcs (ingest_source env) st = (Returned tt, st') -> Q st'.
Proof.
  intros Hkeep Hin Hsrc.
  induction srcs as [|x rest IH]; [destruct Hin|].
  intros st st' Hrun. cbn in Hrun. unfold bind in Hrun.
  destruct (ingest_source_returns env x st) as [st1 Hx].
  rewrite Hx in Hrun.
  destruct Hin as [->|Hin].
  - eapply Hkeep; [eapply for_sources_grows; exact Hrun|].
    eapply Hsrc; exact Hx.
  - eapply IH; eassumption.
Qed.

(** Sources that only deliver known links leave the locals as they are. *)
Lemma for_sources_all_seen srcs loc :
  (forall src items it,
     In src srcs -> fetched env src = Returned items -> In it items ->
     In (it_link it) (map a_link (articles loc))) ->
  forall p, exists p',
    for_of srcs (ingest_source env) (p, loc) = (Returned tt, (p', loc)).
Proof.
  induction srcs as [|src rest IH]; intros Hseen p.
  - now exists p.
  - cbn. unfold bind.
    destruct (ingest_source_unfold env src p loc) as (evs0 & _ & _ & ->).
    destruct (fetched env src) as [items|e] eqn:Hf.
    + rewrite for_items_all_seen
        by (intros it Hit; eapply Hseen; [now left | exact Hf | exact Hit]).
      apply IH. intros; eapply Hseen; [right|..]; eassumption.
    + apply IH. intros; eapply Hseen; [right|..]; eassumption.
Qed.

End SourceLoop.

(* ================================================================== *)
(** ** One source fails, another succeeds *)

(** C4. In a pass over a source list with an enabled source [A] whose
    fetch is rejected and an enabled source [B] whose fetch resolves (and
    whose items the summarizer answers for), the call returns
    [success: true]; the array that goes through the capacity step and is
    written is the loaded store followed by what the pass appended
    (nothing accumulated is taken back), and it has an article for the
    link of every item of [B]; the failure of [A] is printed with
    [console.error].  Unless the capacity step has to cut, that array is
    the store on disk. *)
Theorem failing_source_does_not_stop_the_pass
    (env : Env) (p : proc) (srcs : list source) (arts : list article)
    (A B : source) (eA : exn) (itemsB : list raw_item) :
  isRunning p = false ->
  sourcesFile p = Stored srcs ->
  articlesFile p = Stored arts ->
  In A srcs -> src_enabled A = true -> fetched env A = Thrown eA ->
  In B srcs -> src_enabled B = true -> fetched env B = Returned itemsB ->
  (forall it, In it itemsB ->
              exists s, summarize env (it_content it) = Returned s) ->
  exists p1 added,
    let kept := keep_most_recent env MAX_ARTICLES (arts ++ added) in
    fetchArticles env p =
      (Returned (mkResult true
                   (fetched_message (List.length added) (List.length kept))),
       completed p1 kept (List.length added)) /\
    (forall it, In it itemsB -> In (it_link it) (map a_link (arts ++ added))) /\
    In (ConsoleError (failure_line A eA)) (trace p1) /\
    (List.length (arts ++ added) <= MAX_ARTICLES -> kept = arts ++ added).
Proof.
  intros Hidle Hs Ha HA HAon HAfail HB HBon HBok Hsum.
  destruct (fetchArticles_pass_summary env p Hidle Hs Ha)
    as (p1 & added & Hloop & Hrun & _ & _).
  exists p1, added. cbv zeta. split; [exact Hrun|]. split; [|split].
  - set (Q := fun st : proc * locals =>
                forall it, In it itemsB ->
                           In (it_link it) (map a_link (articles (snd st)))).
    change (Q (p1, mkLocals (arts ++ added) (List.length added))).
    eapply for_sources_establishes with (src := B); [| | |exact Hloop].
    + intros st st' (_ & _ & _ & _ & more & E & _) Hst it Hit.
      rewrite E, map_app. apply in_or_app. left. now apply Hst.
    + apply filter_In. now split.
    + intros [q loc] st' Hstep.
      destruct (ingest_source_ok env B HBok Hsum q loc)
        as (q' & loc' & evs & Hok & Hlinks & _).
      rewrite Hok in Hstep. inversion Hstep; subst. exact Hlinks.
  - set (Q := fun st : proc * locals =>
                In (ConsoleError (failure_line A eA)) (trace (fst st))).
    change (Q (p1, mkLocals (arts ++ added) (List.length added))).
    eapply for_sources_establishes with (src := A); [| | |exact Hloop].
    + intros st st' (_ & _ & _ & [evs T] & _) Hst.
      unfold Q. rewrite T. apply in_or_app. now left.
    + apply filter_In. now split.
    + intros [q loc] st' Hstep.
      destruct (ingest_source_failed env A HAfail q loc) as [evs Hfail].
      rewrite Hfail in Hstep. inversion Hstep; subst. unfold Q. cbn.
      apply in_or_app. right. apply in_or_app. right. now left.
  - apply keep_most_recent_small.
Qed.

Lemma failing_source_does_not_stop_the_pass_witness :
  let p := Demo.idle (Stored [Demo.srcA; Demo.srcB])
                     (Stored [Demo.art "https://x/1" None 10]) in
  exists p1 added,
    let kept := keep_most_recent Demo.env MAX_ARTICLES
                  ([Demo.art "https://x/1" None 10] ++ added) in
    fetchArticles Demo.env p =
      (Returned (mkResult true
                   (fetched_message (List.length added) (List.length kept))),
       completed p1 kept (List.length added)) /\
    (forall it, In it (map to_item [Demo.itemB1; Demo.itemB2]) ->
                In (it_link it)
                   (map a_link ([Demo.art "https://x/1" None 10] ++ added))) /\
    In (ConsoleError
          (failure_line Demo.srcA (Error "getaddrinfo ENOTFOUND a.example")))
       (trace p1) /\
    (List.length ([Demo.art "https://x/1" None 10] ++ added) <= MAX_ARTICLES ->
     kept = [Demo.art "https://x/1" None 10] ++ added).
Proof.
  apply (@failing_source_does_not_stop_the_pass Demo.env
           (Demo.idle (Stored [Demo.srcA; Demo.srcB])
                      (Stored [Demo.art "https://x/1" None 10]))
           [Demo.srcA; Demo.srcB] [Demo.art "https://x/1" None 10]
           Demo.srcA Demo.srcB
           (Error "getaddrinfo ENOTFOUND a.example")
           (map to_item [Demo.itemB1; Demo.itemB2])).
  - reflexivity.
  - reflexivity.
  - reflexivity.
  - now left.
  - reflexivity.
  - reflexivity.
  - right. now left.
  - reflexivity.
  - reflexivity.
  - intros it _. now eexists.
Defined.

(* ================================================================== *)
(** ** A second pass with nothing new *)

(** C5. After a pass that completed, a second pass in which every item
    the enabled sources deliver has a link that is already in the store
    reports 0 new articles and writes the store back as it was.  ([env']
    stands for the capabilities as they are during the second pass; with
    fixed upstream outputs it is [env].) *)
Theorem second_pass_changes_nothing
    (env env' : Env) (p0 : proc) (r1 : fetch_result) (p1 : proc) :
  isRunning p0 = false ->
  fetchArticles env p0 = (Returned r1, p1) ->
  success r1 = true ->
  (forall srcs stored src items it,
     sourcesFile p1 = Stored srcs -> articlesFile p1 = Stored stored ->
     In src srcs -> src_enabled src = true ->
     fetched env' src = Returned items -> In it items ->
     In (it_link it) (map a_link stored)) ->
  exists stored p2,
    articlesFile p1 = Stored stored /\
    fetchArticles env' p1 =
      (Returned (mkResult true (fetched_message 0 (List.length stored))), p2) /\
    articlesFile p2 = Stored stored.
Proof.
  intros Hidle Hfirst Hok Hseen.
  destruct (fetchArticles_success_inv env p0 Hidle Hfirst Hok)
    as (srcs & stored & _ & Hs1 & Ha1 & Hlen & Hfree).
  destruct (for_sources_all_seen env' (filter src_enabled srcs) (mkLocals stored 0))
    with (p := started p1) as [q Hloop].
  { intros src items it Hin Hf Hit. apply filter_In in Hin as [Hin Hon].
    cbn. eapply Hseen; eassumption. }
  pose proof (fetchArticles_pass env' p1 Hfree Hs1 Ha1 Hloop) as Hsecond.
  cbn [articles newCount] in Hsecond.
  rewrite keep_most_recent_small in Hsecond by assumption.
  exists stored. eexists. split; [exact Ha1|]. split; [exact Hsecond|].
  reflexivity.
Qed.

Lemma second_pass_changes_nothing_witness :
  let p0 := Demo.idle (Stored [Demo.srcA; Demo.srcB])
                      (Stored [Demo.art "https://x/1" None 10]) in
  exists stored p2,
    articlesFile (snd (fetchArticles Demo.env p0)) = Stored stored /\
    fetchArticles Demo.env (snd (fetchArticles Demo.env p0)) =
      (Returned (mkResult true (fetched_message 0 (List.length stored))), p2) /\
    articlesFile p2 = Stored stored.
Proof.
  apply (@second_pass_changes_nothing Demo.env Demo.env
           (Demo.idle (Stored [Demo.srcA; Demo.srcB])
                      (Stored [Demo.art "https://x/1" None 10]))
           (mkResult true "Fetched 1 new articles. Total: 2")).
  - reflexivity.
  - vm_compute. reflexivity.
  - reflexivity.
  - intros srcs stored src items it Hs Ha Hin Hon Hf Hit.
    vm_compute in Hs, Ha.
    injection Hs as <-. injection Ha as <-.
    destruct Hin as [<-|[<-|[]]].
    + vm_compute in Hf. discriminate.
    + vm_compute in Hf. injection Hf as <-.
      destruct Hit as [<-|[<-|[]]]; vm_compute; tauto.
Defined.

(* ================================================================== *)
(** ** The summarizer fails *)

(** With a summarizer that itself rejects, the inner [catch] of the
    source loop is what handles it: the rest of the source's items is
    given up.  Here feed B delivers a known and a new item and nothing is
    added. *)
Example rejecting_summarizer_gives_up_the_source :
  fst (fetchArticles Demo.env_broken
         (Demo.idle (Stored [Demo.srcB]) (Stored [Demo.art "https://x/1" None 10])))
  = Returned (mkResult true "Fetched 0 new articles. Total: 1").
Proof. reflexivity. Qed.

(** C6. With [ai.summarize] as the spec describes it, a failure of the
    capability it relies on is caught inside it and replaced by the first
    [N] characters of the body.  An item with a new link whose
    summarization failed that way is pushed as an article with the
    fallback summary and counted; the item loop of a fetched source runs
    to its end, every item of the source has its link in [articles]
    afterwards and no error line is printed for the source; and a pass
    over readable files returns [success: true]. *)
Theorem summarizer_failure_keeps_the_article
    (env0 : Env) (capability : string -> outcome string) (N : nat) :
  let env := with_summarizer env0 (summarize_with_fallback capability N) in
  (forall body e,
     capability body = Thrown e ->
     summarize env body = Returned (substring 0 N body)) /\
  (forall src it p loc e,
     capability (it_content it) = Thrown e ->
     ~ In (it_link it) (map a_link (articles loc)) ->
     ingest_item env src it (p, loc) =
       (Returned tt,
        (mkProc (isRunning p) (sourcesFile p) (articlesFile p) (S (dateReads p))
                (trace p ++ [Summarize (it_content it)]),
         mkLocals
           (articles loc ++
              [mkArticle (src_id src) (src_name src) (it_title it) (it_link it)
                         (it_published it) (substring 0 N (it_content it))
                         (clock env0 (dateReads p))])
           (S (newCount loc))))) /\
  (forall src items p loc,
     fetched env src = Returned items ->
     exists p' loc' evs,
       ingest_source env src (p, loc) = (Returned tt, (p', loc')) /\
       (forall it, In it items -> In (it_link it) (map a_link (articles loc'))) /\
       trace p' = trace p ++ evs /\ quiet evs) /\
  (forall p srcs arts,
     isRunning p = false ->
     sourcesFile p = Stored srcs ->
     articlesFile p = Stored arts ->
     exists r p', fetchArticles env p = (Returned r, p') /\ success r = true).
Proof.
  intros env.
  assert (Hcaught : forall body e, capability body = Thrown e ->
                    summarize env body = Returned (substring 0 N body)).
  { intros body e Hfail. cbn. unfold summarize_with_fallback. now rewrite Hfail. }
  assert (Htotal : forall body, exists s, summarize env body = Returned s).
  { intros body. cbn. unfold summarize_with_fallback.
    destruct (capability body); now eexists. }
  split; [exact Hcaught|]. split; [|split].
  - intros src it p loc e Hfail Hnew.
    apply (@ingest_item_admitted env src it p loc _ Hnew).
    eapply Hcaught, Hfail.
  - intros src items p loc Hf.
    apply ingest_source_ok; [exact Hf|].
    intros it _. apply Htotal.
  - intros p srcs arts Hidle Hs Ha.
    destruct (fetchArticles_pass_summary env p Hidle Hs Ha)
      as (p1 & added & _ & Hrun & _).
    do 2 eexists. split; [exact Hrun | reflexivity].
Qed.

Lemma summarizer_failure_keeps_the_article_witness :
  let env := with_summarizer Demo.env (summarize_with_fallback Demo.broken 6) in
  summarize env "first body" = Returned "first " /\
  exists p' loc' evs,
    ingest_source env Demo.srcB
      (Demo.idle (Stored [Demo.srcB]) (Stored []), mkLocals [] 0)
      = (Returned tt, (p', loc')) /\
    (forall it, In it (map to_item [Demo.itemB1; Demo.itemB2]) ->
                In (it_link it) (map a_link (articles loc'))) /\
    trace p' = trace (Demo.idle (Stored [Demo.srcB]) (Stored [])) ++ evs /\
    quiet evs.
Proof.
  destruct (summarizer_failure_keeps_the_article Demo.env Demo.broken 6)
    as (Hcaught & _ & Hsource & _).
  split.
  - apply (Hcaught "first body" (Error "summarizer unavailable")). reflexivity.
  - apply Hsource. reflexivity.
Defined.

(** The same pass, run: both items of feed B are stored with the first six
    characters of their bodies as summaries. *)
Example fallback_summaries_are_stored :
  fetchArticles
    (with_summarizer Demo.env (summarize_with_fallback Demo.broken 6))
    (Demo.idle (Stored [Demo.srcB]) (Stored []))
  = (Returned (mkResult true "Fetched 2 new articles. Total: 2"),
     mkProc false (Stored [Demo.srcB])
       (Stored [mkArticle 2 "B" (Some "One") (Some "https://x/1")
                          (Some "1970-01-01T00:00:00.005Z") "first "
                          "1970-01-01T00:00:00.030Z";
                mkArticle 2 "B" (Some "Two") (Some "https://x/2")
                          None "second"
                          "1970-01-01T00:00:00.031Z"])
       2
       [ConsoleLog "Starting manual fetch...";
        FsRead "data/sources.json"; FsRead "data/articles.json";
        ConsoleLog "Fetching from B..."; HttpGet "https://b.example/rss";
        Summarize "first body"; Summarize "second body";
        FsWrite "data/articles.json";
        ConsoleLog "Fetch complete. Total articles: 2, New: 2"]).
Proof. reflexivity. Qed.

(* ================================================================== *)
(** ** The source registry *)

Lemma truthy_spec (x : option string) :
  truthy x = true <-> exists s, x = Some s /\ s <> "".
Proof.
  destruct x as [s|]; cbn.
  - rewrite negb_true_iff, String.eqb_neq. split.
    + intros H. now exists s.
    + intros (s' & [= <-] & H). exact H.
  - split; [discriminate | intros (s & H & _); discriminate].
Qed.

Section Registry.

Variable ms_clock : nat -> Z.
Variable parseInt : string -> option Z.

Lemma get_sources_stored p srcs :
  sourcesFile p = Stored srcs ->
  get_sources p =
    (Returned (mkReply 200 (SourceList srcs)), logged p [FsRead sourcesPath]).
Proof.
  intros Hs.
  unfold get_sources, try_catch, bind, read_sources, bind, emit, ret, logged.
  cbn [sourcesFile]. rewrite Hs. reflexivity.
Qed.

Lemma post_sources_incomplete form p :
  (truthy (f_name form) && truthy (f_url form) && truthy (f_type form))%bool = false ->
  post_sources ms_clock form p =
    (Returned (mkReply 400 (Failure "Missing required fields")), p).
Proof.
  intros H. unfold post_sources, try_catch.
  destruct (truthy (f_name form)), (truthy (f_url form)), (truthy (f_type form));
    try discriminate; reflexivity.
Qed.

Lemma post_sources_stored name url type p srcs :
  name <> "" -> url <> "" -> type <> "" ->
  sourcesFile p = Stored srcs ->
  post_sources ms_clock (mkForm (Some name) (Some url) (Some type)) p =
    (Returned (mkReply 200 (Added (ms_clock (dateReads p)))),
     mkProc (isRunning p)
            (Stored (srcs ++ [mkSource (ms_clock (dateReads p)) name url type true]))
            (articlesFile p) (S (dateReads p))
            (trace p ++ [FsRead sourcesPath; FsWrite sourcesPath])).
Proof.
  intros Hn Hu Ht Hs.
  apply String.eqb_neq in Hn, Hu, Ht.
  unfold post_sources, try_catch. cbn [truthy f_name f_url f_type field].
  rewrite Hn, Hu, Ht. cbn [negb orb].
  unfold bind, read_sources, bind, emit, Date_now, write_sources, bind, emit, ret.
  cbn [sourcesFile articlesFile isRunning dateReads trace].
  rewrite Hs. cbn [parse_file]. rewrite <- app_assoc. reflexivity.
Qed.

Lemma delete_sources_stored param p srcs :
  sourcesFile p = Stored srcs ->
  delete_sources parseInt param p =
    (Returned (mkReply 200 Done),
     mkProc (isRunning p)
            (Stored (filter (fun s => id_differs (src_id s) (parseInt param)) srcs))
            (articlesFile p) (dateReads p)
            (trace p ++ [FsRead sourcesPath; FsWrite sourcesPath])).
Proof.
  intros Hs.
  unfold delete_sources, try_catch, bind, read_sources, bind, emit,
    write_sources, bind, emit, ret.
  cbn [sourcesFile articlesFile isRunning dateReads trace].
  rewrite Hs. cbn [parse_file]. rewrite <- app_assoc. reflexivity.
Qed.

(** With a source list that cannot be read, a handler that gets as far as
    reading it answers 500 and only adds to the trace. *)
Lemma registry_unreadable p :
  unreadable (sourcesFile p) ->
  exists e,
    get_sources p =
      (Returned (mkReply 500 (Failure "Failed to read sources")),
       logged p [FsRead sourcesPath;
                 ConsoleError ("Error reading sources: " ++ e_message e)%string]) /\
    (forall param,
       delete_sources parseInt param p =
         (Returned (mkReply 500 (Failure "Failed to delete source")),
          logged p [FsRead sourcesPath;
                    ConsoleError ("Error deleting source: " ++ e_message e)%string])) /\
    (forall form,
       (truthy (f_name form) && truthy (f_url form) && truthy (f_type form))%bool = true ->
       post_sources ms_clock form p =
         (Returned (mkReply 500 (Failure "Failed to add source")),
          logged p [FsRead sourcesPath;
                    ConsoleError ("Error adding source: " ++ e_message e)%string])).
Proof.
  intros Hbad.
  destruct (unreadable_Thrown sourcesPath _ Hbad) as [e He].
  exists e. split; [|split].
  - unfold get_sources, try_catch, bind, read_sources, bind, emit,
      console_error, emit, ret, logged.
    cbn [sourcesFile articlesFile isRunning dateReads trace].
    rewrite He. cbn. now rewrite <- app_assoc.
  - intros param.
    unfold delete_sources, try_catch, bind, read_sources, bind, emit,
      console_error, emit, ret, logged.
    cbn [sourcesFile articlesFile isRunning dateReads trace].
    rewrite He. cbn. now rewrite <- app_assoc.
  - intros form Hform.
    apply andb_prop in Hform as [Hform Ht]. apply andb_prop in Hform as [Hn Hu].
    unfold post_sources, try_catch. rewrite Hn, Hu, Ht. cbn [negb orb].
    unfold bind, read_sources, bind, emit, console_error, emit, ret, logged.
    cbn [sourcesFile articlesFile isRunning dateReads trace].
    rewrite He. cbn. now rewrite <- app_assoc.
Qed.

End Registry.

(** X1. [POST /api/sources] with a field that is missing or the empty
    string answers 400 "Missing required fields" before anything else
    happens: the process is as it was, the source list is not even read. *)
Theorem post_sources_rejects_incomplete_form
    (ms_clock : nat -> Z) (form : source_form) (p : proc) :
  truthy (f_name form) = false \/ truthy (f_url form) = false
    \/ truthy (f_type form) = false ->
  post_sources ms_clock form p =
    (Returned (mkReply 400 (Failure "Missing required fields")), p).
Proof.
  intros H. apply post_sources_incomplete.
  destruct H as [ -> | [ -> | -> ] ]; cbn; rewrite ?andb_false_r; reflexivity.
Qed.

Lemma post_sources_rejects_incomplete_form_witness :
  post_sources Demo.ms_clock (mkForm (Some "C") (Some "") (Some "rss")) Demo.busy =
    (Returned (mkReply 400 (Failure "Missing required fields")), Demo.busy).
Proof.
  apply (post_sources_rejects_incomplete_form Demo.ms_clock
           (mkForm (Some "C") (Some "") (Some "rss")) Demo.busy).
  right. left. reflexivity.
Defined.

(** X2. [POST /api/sources] with three non-empty fields over a readable
    list answers [{ success: true, id }] with the clock reading as id; the
    list on disk is the old one followed by one new source with that id,
    the three fields and [enabled: true]; the article store and the guard
    are as before; and a [GET /api/sources] that follows returns exactly
    that list. *)
Theorem post_sources_appends_and_lists
    (ms_clock : nat -> Z) (name url type : string) (p : proc) (srcs : list source) :
  name <> "" -> url <> "" -> type <> "" ->
  sourcesFile p = Stored srcs ->
  let id := ms_clock (dateReads p) in
  let added := srcs ++ [mkSource id name url type true] in
  exists p',
    post_sources ms_clock (mkForm (Some name) (Some url) (Some type)) p
      = (Returned (mkReply 200 (Added id)), p') /\
    sourcesFile p' = Stored added /\
    articlesFile p' = articlesFile p /\
    isRunning p' = isRunning p /\
    fst (get_sources p') = Returned (mkReply 200 (SourceList added)).
Proof.
  intros Hn Hu Ht Hs id added.
  eexists. split; [apply post_sources_stored; eassumption|].
  repeat split.
Qed.

Lemma post_sources_appends_and_lists_witness :
  let p := Demo.idle (Stored [Demo.srcA]) (Stored []) in
  let added := [Demo.srcA; mkSource 1000 "C" "https://c.example/rss" "rss" true] in
  exists p',
    post_sources Demo.ms_clock Demo.formC p
      = (Returned (mkReply 200 (Added 1000)), p') /\
    sourcesFile p' = Stored added /\
    articlesFile p' = articlesFile p /\
    isRunning p' = isRunning p /\
    fst (get_sources p') = Returned (mkReply 200 (SourceList added)).
Proof.
  apply (@post_sources_appends_and_lists Demo.ms_clock
           "C" "https://c.example/rss" "rss"
           (Demo.idle (Stored [Demo.srcA]) (Stored [])) [Demo.srcA]);
    (discriminate || reflexivity).
Defined.

(** X3. [DELETE /api/sources/:id] with a numeric id over a readable list
    answers [{ success: true }]; the list on disk is the old one without
    the sources of that id, the others in their order; the article store
    is as before. *)
Theorem delete_sources_removes_exactly
    (parseInt : string -> option Z) (param : string) (id : Z)
    (p : proc) (srcs : list source) :
  sourcesFile p = Stored srcs ->
  parseInt param = Some id ->
  exists p' kept,
    delete_sources parseInt param p = (Returned (mkReply 200 Done), p') /\
    sourcesFile p' = Stored kept /\
    kept = filter (fun s => negb (src_id s =? id)%Z) srcs /\
    (forall s, In s kept <-> In s srcs /\ src_id s <> id) /\
    articlesFile p' = articlesFile p.
Proof.
  intros Hs Hid.
  do 2 eexists. split; [apply delete_sources_stored; eassumption|].
  rewrite Hid. cbn [sourcesFile articlesFile id_differs].
  split; [reflexivity|]. split; [reflexivity|]. split; [|reflexivity].
  intros s. rewrite filter_In, negb_true_iff, Z.eqb_neq. tauto.
Qed.

Lemma delete_sources_removes_exactly_witness :
  let p := Demo.idle (Stored [Demo.srcA; Demo.srcB; Demo.srcJ]) (Stored []) in
  exists p' kept,
    delete_sources Demo.parseInt "2" p = (Returned (mkReply 200 Done), p') /\
    sourcesFile p' = Stored kept /\
    kept = filter (fun s => negb (src_id s =? 2)%Z) [Demo.srcA; Demo.srcB; Demo.srcJ] /\
    (forall s, In s kept <-> In s [Demo.srcA; Demo.srcB; Demo.srcJ] /\ src_id s <> 2%Z) /\
    articlesFile p' = articlesFile p.
Proof.
  apply (@delete_sources_removes_exactly Demo.parseInt "2" 2
           (Demo.idle (Stored [Demo.srcA; Demo.srcB; Demo.srcJ]) (Stored []))
           [Demo.srcA; Demo.srcB; Demo.srcJ]); reflexivity.
Defined.

Lemma filter_all {A} (f : A -> bool) (l : list A) :
  (forall x, In x l -> f x = true) -> filter f l = l.
Proof.
  induction l as [|x rest IH]; intros H; cbn.
  - reflexivity.
  - rewrite (H x) by now left. f_equal. apply IH. intros; apply H; now right.
Qed.

(** X4. [DELETE /api/sources/:id] for an id no source has, or for a
    parameter [parseInt] turns into [NaN], is not an error: the answer is
    [{ success: true }] and the list on disk is the list that was there. *)
Theorem delete_sources_absent_id_is_noop
    (parseInt : string -> option Z) (param : string)
    (p : proc) (srcs : list source) :
  sourcesFile p = Stored srcs ->
  (forall id, parseInt param = Some id -> forall s, In s srcs -> src_id s <> id) ->
  exists p',
    delete_sources parseInt param p = (Returned (mkReply 200 Done), p') /\
    sourcesFile p' = Stored srcs.
Proof.
  intros Hs Habsent.
  eexists. split; [apply delete_sources_stored; eassumption|].
  cbn [sourcesFile]. f_equal. apply filter_all.
  intros s Hin. destruct (parseInt param) as [id|]; [|reflexivity].
  cbn. apply negb_true_iff, Z.eqb_neq. now apply (Habsent id).
Qed.

Lemma delete_sources_absent_id_is_noop_witness :
  exists p',
    delete_sources Demo.parseInt "abc"
      (Demo.idle (Stored [Demo.srcA; Demo.srcB]) (Stored []))
      = (Returned (mkReply 200 Done), p') /\
    sourcesFile p' = Stored [Demo.srcA; Demo.srcB].
Proof.
  apply (@delete_sources_absent_id_is_noop Demo.parseInt "abc"
           (Demo.idle (Stored [Demo.srcA; Demo.srcB]) (Stored []))
           [Demo.srcA; Demo.srcB]).
  - reflexivity.
  - intros id Hid. discriminate Hid.
Defined.

Lemma filter_filter_same {A} (f : A -> bool) (l : list A) :
  filter f (filter f l) = filter f l.
Proof.
  apply filter_all. intros x Hx. now apply filter_In in Hx.
Qed.

(** X5. Deleting the same id a second time changes nothing any more:
    whatever the source list file holds, it is after two [DELETE]s what
    it is after one. *)
Theorem delete_sources_twice
    (parseInt : string -> option Z) (param : string) (p : proc) :
  sourcesFile (snd ((delete_sources parseInt param ;;
                     delete_sources parseInt param) p))
  = sourcesFile (snd (delete_sources parseInt param p)).
Proof.
  unfold bind at 1.
  destruct (files_readable_dec p) as [[Hbad|Hbad]|(srcs & arts & Hs & _)].
  - destruct (registry_unreadable (fun _ => 0%Z) parseInt p Hbad) as (e & _ & Hdel & _).
    rewrite Hdel.
    assert (Hbad' : unreadable
                      (sourcesFile
                         (logged p [FsRead sourcesPath;
                                    ConsoleError ("Error deleting source: "
                                                  ++ e_message e)%string])))
      by exact Hbad.
    destruct (registry_unreadable (fun _ => 0%Z) parseInt _ Hbad') as (e' & _ & Hdel' & _).
    rewrite Hdel'. reflexivity.
  - destruct (sourcesFile p) as [|c|srcs] eqn:Hs.
    1, 2: assert (Hb : unreadable (sourcesFile p)) by (rewrite Hs; exact I);
          destruct (registry_unreadable (fun _ => 0%Z) parseInt p Hb)
            as (e & _ & Hdel & _);
          rewrite Hdel;
          match goal with
          | |- context [delete_sources _ _ ?q] =>
              assert (Hb' : unreadable (sourcesFile q)) by exact Hb;
              destruct (registry_unreadable (fun _ => 0%Z) parseInt q Hb')
                as (e' & _ & Hdel' & _)
          end;
          rewrite Hdel'; reflexivity.
    rewrite (delete_sources_stored parseInt param p Hs).
    erewrite delete_sources_stored by reflexivity.
    cbn [snd sourcesFile]. now rewrite filter_filter_same.
  - rewrite (delete_sources_stored parseInt param p Hs).
    erewrite delete_sources_stored by reflexivity.
    cbn [snd sourcesFile]. now rewrite filter_filter_same.
Qed.

Lemma filter_app_fresh (id : Z) (srcs extra : list source) :
  (forall s, In s srcs -> src_id s <> id) ->
  (forall s, In s extra -> src_id s = id) ->
  filter (fun s => id_differs (src_id s) (Some id)) (srcs ++ extra) = srcs.
Proof.
  intros Hfresh Hsame. rewrite filter_app.
  rewrite (filter_all _ srcs).
  - replace (filter _ extra) with (@nil source); [apply app_nil_r|].
    symmetry. induction extra as [|x rest IH]; [reflexivity|].
    cbn. rewrite (Hsame x) by now left. rewrite Z.eqb_refl. cbn.
    apply IH. intros; apply Hsame; now right.
  - intros s Hin. cbn. apply negb_true_iff, Z.eqb_neq. now apply Hfresh.
Qed.

(** X6. Adding a source and then deleting the id the [POST] answered
    gives back the list that was there, provided no source had that id
    before. *)
Theorem post_then_delete_restores
    (ms_clock : nat -> Z) (parseInt : string -> option Z)
    (name url type param : string) (p : proc) (srcs : list source) :
  name <> "" -> url <> "" -> type <> "" ->
  sourcesFile p = Stored srcs ->
  parseInt param = Some (ms_clock (dateReads p)) ->
  (forall s, In s srcs -> src_id s <> ms_clock (dateReads p)) ->
  exists p',
    (post_sources ms_clock (mkForm (Some name) (Some url) (Some type)) ;;
     delete_sources parseInt param) p = (Returned (mkReply 200 Done), p') /\
    sourcesFile p' = Stored srcs.
Proof.
  intros Hn Hu Ht Hs Hid Hfresh.
  unfold bind at 1.
  rewrite (post_sources_stored ms_clock p Hn Hu Ht Hs).
  erewrite delete_sources_stored by reflexivity.
  eexists. split; [reflexivity|].
  cbn [sourcesFile]. rewrite Hid. f_equal.
  apply filter_app_fresh; [exact Hfresh|].
  intros s [<-|[]]. reflexivity.
Qed.

Lemma post_then_delete_restores_witness :
  exists p',
    (post_sources Demo.ms_clock Demo.formC ;;
     delete_sources Demo.parseInt "1000")
      (Demo.idle (Stored [Demo.srcA; Demo.srcB]) (Stored []))
      = (Returned (mkReply 200 Done), p') /\
    sourcesFile p' = Stored [Demo.srcA; Demo.srcB].
Proof.
  apply (@post_then_delete_restores Demo.ms_clock Demo.parseInt
           "C" "https://c.example/rss" "rss" "1000"
           (Demo.idle (Stored [Demo.srcA; Demo.srcB]) (Stored []))
           [Demo.srcA; Demo.srcB]);
    try discriminate; try reflexivity.
  intros s [<-|[<-|[]]]; discriminate.
Defined.

(** X7. When [data/sources.json] is missing or is not JSON, [GET] and
    [DELETE] answer 500, and so does a [POST] with a complete form; none
    of them writes: the file, the article store and the guard are as
    before, so a corrupt list is never replaced by a handler. *)
Theorem registry_keeps_unreadable_list
    (ms_clock : nat -> Z) (parseInt : string -> option Z) (p : proc) :
  unreadable (sourcesFile p) ->
  (exists evs,
     get_sources p =
       (Returned (mkReply 500 (Failure "Failed to read sources")), logged p evs)) /\
  (forall param, exists evs,
     delete_sources parseInt param p =
       (Returned (mkReply 500 (Failure "Failed to delete source")), logged p evs)) /\
  (forall form,
     truthy (f_name form) = true -> truthy (f_url form) = true ->
     truthy (f_type form) = true ->
     exists evs,
       post_sources ms_clock form p =
         (Returned (mkReply 500 (Failure "Failed to add source")), logged p evs)).
Proof.
  intros Hbad.
  destruct (registry_unreadable ms_clock parseInt p Hbad) as (e & Hget & Hdel & Hpost).
  split; [|split].
  - eexists. exact Hget.
  - intros param. eexists. apply Hdel.
  - intros form Hn Hu Ht. eexists. apply Hpost. now rewrite Hn, Hu, Ht.
Qed.

Lemma registry_keeps_unreadable_list_witness :
  exists evs,
    delete_sources Demo.parseInt "2" (Demo.idle (Malformed "Unexpected token") (Stored []))
    = (Returned (mkReply 500 (Failure "Failed to delete source")),
       logged (Demo.idle (Malformed "Unexpected token") (Stored [])) evs).
Proof.
  apply (registry_keeps_unreadable_list Demo.ms_clock Demo.parseInt
           (Demo.idle (Malformed "Unexpected token") (Stored []))).
  exact I.
Defined.

(** X8. The id is the millisecond clock, so it is not unique: two sources
    added while the clock shows the same millisecond get the same id, and
    one [DELETE] of that id removes both. *)
Theorem same_millisecond_same_id
    (ms_clock : nat -> Z) (parseInt : string -> option Z)
    (name1 url1 type1 name2 url2 type2 param : string)
    (p : proc) (srcs : list source) :
  name1 <> "" -> url1 <> "" -> type1 <> "" ->
  name2 <> "" -> url2 <> "" -> type2 <> "" ->
  sourcesFile p = Stored srcs ->
  ms_clock (S (dateReads p)) = ms_clock (dateReads p) ->
  parseInt param = Some (ms_clock (dateReads p)) ->
  (forall s, In s srcs -> src_id s <> ms_clock (dateReads p)) ->
  let id := ms_clock (dateReads p) in
  exists p2 p3,
    (post_sources ms_clock (mkForm (Some name1) (Some url1) (Some type1)) ;;
     post_sources ms_clock (mkForm (Some name2) (Some url2) (Some type2))) p
      = (Returned (mkReply 200 (Added id)), p2) /\
    sourcesFile p2 =
      Stored (srcs ++ [mkSource id name1 url1 type1 true;
                       mkSource id name2 url2 type2 true]) /\
    delete_sources parseInt param p2 = (Returned (mkReply 200 Done), p3) /\
    sourcesFile p3 = Stored srcs.
Proof.
  intros Hn1 Hu1 Ht1 Hn2 Hu2 Ht2 Hs Hsame Hid Hfresh id.
  unfold bind at 1.
  rewrite (post_sources_stored ms_clock p Hn1 Hu1 Ht1 Hs).
  erewrite (post_sources_stored ms_clock _ Hn2 Hu2 Ht2) by reflexivity.
  cbn [dateReads]. rewrite Hsame. fold id.
  do 2 eexists. split; [reflexivity|].
  cbn [sourcesFile]. rewrite <- app_assoc. cbn [app].
  split; [reflexivity|].
  erewrite delete_sources_stored by reflexivity.
  split; [reflexivity|].
  cbn [sourcesFile]. rewrite Hid. f_equal.
  apply filter_app_fresh; [exact Hfresh|].
  intros s [<-|[<-|[]]]; reflexivity.
Qed.

Lemma same_millisecond_same_id_witness :
  exists p2 p3,
    (post_sources Demo.frozen_clock Demo.formC ;;
     post_sources Demo.frozen_clock
       (mkForm (Some "D") (Some "https://d.example/rss") (Some "rss")))
      (Demo.idle (Stored [Demo.srcA]) (Stored []))
      = (Returned (mkReply 200 (Added 1000)), p2) /\
    sourcesFile p2 =
      Stored ([Demo.srcA] ++
              [mkSource 1000 "C" "https://c.example/rss" "rss" true;
               mkSource 1000 "D" "https://d.example/rss" "rss" true]) /\
    delete_sources Demo.parseInt "1000" p2 = (Returned (mkReply 200 Done), p3) /\
    sourcesFile p3 = Stored [Demo.srcA].
Proof.
  apply (@same_millisecond_same_id Demo.frozen_clock Demo.parseInt
           "C" "https://c.example/rss" "rss" "D" "https://d.example/rss" "rss"
           "1000" (Demo.idle (Stored [Demo.srcA]) (Stored [])) [Demo.srcA]);
    try discriminate; try reflexivity.
  intros s [<-|[]]; discriminate.
Defined.

(* ================================================================== *)
(** ** More about the pass *)

Section PassEffects.

Variable env : Env.

Lemma fetchSource_requests src p :
  fetchSource env src p = (fetched env src, logged p (requests_of src)).
Proof.
  unfold fetched, requests_of.
  destruct (String.eqb (src_type src) "rss") eqn:Hty.
  - now rewrite !fetchSource_rss by assumption.
  - rewrite !fetchSource_other_type by assumption.
    unfold logged. rewrite app_nil_r. now destruct p.
Qed.

(** One iteration of the source loop, with the effects spelled out. *)
Lemma ingest_source_effects src p loc :
  ingest_source env src (p, loc) =
    match fetched env src with
    | Thrown e =>
        (Returned tt,
         (logged p (ConsoleLog (fetching_line src) :: requests_of src
                    ++ [ConsoleError (failure_line src e)]), loc))
    | Returned items =>
        match for_of items (ingest_item env src)
                (logged p (ConsoleLog (fetching_line src) :: requests_of src), loc) with
        | (Returned u, st') => (Returned u, st')
        | (Thrown e, (p', loc')) =>
            (Returned tt, (logged p' [ConsoleError (failure_line src e)], loc'))
        end
    end.
Proof.
  unfold ingest_source, try_catch, bind, liftP, console_log, console_error, emit.
  cbn [fst snd].
  change (mkProc (isRunning p) (sourcesFile p) (articlesFile p) (dateReads p)
            (trace p ++ [ConsoleLog ("Fetching from " ++ src_name src ++ "...")%string]))
    with (logged p [ConsoleLog (fetching_line src)]).
  rewrite fetchSource_requests, logged_logged. cbn [app fst snd].
  destruct (fetched env src) as [items|e].
  - destruct (for_of items (ingest_item env src) _) as [[u|e] [p' loc']];
      reflexivity.
  - cbn [fst snd]. unfold logged, failure_line.
    cbn [isRunning sourcesFile articlesFile dateReads trace].
    now rewrite <- app_assoc.
Qed.

Lemma only_summarizes_refl st : only_summarizes st st.
Proof.
  exists []. split; [now rewrite app_nil_r | intros ev []].
Qed.

Lemma only_summarizes_trans st1 st2 st3 :
  only_summarizes st1 st2 -> only_summarizes st2 st3 -> only_summarizes st1 st3.
Proof.
  intros (e1 & T1 & H1) (e2 & T2 & H2).
  exists (e1 ++ e2). split.
  - rewrite T2, T1. now rewrite app_assoc.
  - intros ev Hin. apply in_app_or in Hin. destruct Hin; auto.
Qed.

Lemma ingest_item_only_summarizes src it st r st' :
  ingest_item env src it st = (r, st') -> only_summarizes st st'.
Proof.
  destruct st as [p loc]. intros Hrun.
  destruct (In_dec_link (it_link it) (articles loc)) as [Hin|Hnew].
  - rewrite ingest_item_seen in Hrun by assumption.
    inversion Hrun; subst. apply only_summarizes_refl.
  - destruct (summarize env (it_content it)) as [summary|e] eqn:Hsum.
    + rewrite (@ingest_item_admitted env src it p loc _ Hnew Hsum) in Hrun.
      inversion Hrun; subst. eexists. split; [reflexivity|].
      intros ev [<-|[]]. now eexists.
    + rewrite (@ingest_item_thrown env src it p loc _ Hnew Hsum) in Hrun.
      inversion Hrun; subst. eexists. split; [reflexivity|].
      intros ev [<-|[]]. now eexists.
Qed.

Lemma for_items_only_summarizes src items st r st' :
  for_of items (ingest_item env src) st = (r, st') -> only_summarizes st st'.
Proof.
  apply for_of_preserves with (R := only_summarizes).
  - apply only_summarizes_refl.
  - apply only_summarizes_trans.
  - intros x s r0 s0 _. apply ingest_item_only_summarizes.
Qed.

Lemma requests_from_refl srcs st : requests_from srcs st st.
Proof.
  exists []. split; [now rewrite app_nil_r | intros u []].
Qed.

Lemma requests_from_trans srcs st1 st2 st3 :
  requests_from srcs st1 st2 -> requests_from srcs st2 st3 ->
  requests_from srcs st1 st3.
Proof.
  intros (e1 & T1 & H1) (e2 & T2 & H2).
  exists (e1 ++ e2). split.
  - rewrite T2, T1. now rewrite app_assoc.
  - intros u Hin. apply in_app_or in Hin. destruct Hin; auto.
Qed.

Lemma requests_of_within srcs src u :
  In src srcs -> src_enabled src = true ->
  In (HttpGet u) (requests_of src) ->
  exists src', In src' srcs /\ src_enabled src' = true /\
               src_type src' = "rss" /\ src_url src' = u.
Proof.
  intros Hin Hon. unfold requests_of.
  destruct (String.eqb (src_type src) "rss") eqn:Hty; [|intros []].
  intros [[= <-]|[]]. apply String.eqb_eq in Hty. now exists src.
Qed.

Lemma ingest_source_requests srcs src st r st' :
  In src srcs -> src_enabled src = true ->
  ingest_source env src st = (r, st') -> requests_from srcs st st'.
Proof.
  intros Hin Hon. destruct st as [p loc].
  rewrite ingest_source_effects.
  assert (Hhead : forall u,
            In (HttpGet u) (ConsoleLog (fetching_line src) :: requests_of src) ->
            exists src', In src' srcs /\ src_enabled src' = true /\
                         src_type src' = "rss" /\ src_url src' = u).
  { intros u [H|H]; [discriminate|]. eapply requests_of_within; eassumption. }
  destruct (fetched env src) as [items|e].
  - destruct (for_of items (ingest_item env src) _) as [[u|e] [p' loc']] eqn:E;
      intros Hrun; inversion Hrun; subst;
      apply for_items_only_summarizes in E; destruct E as (evs & T & Hev);
      cbn [fst logged trace] in T.
    + exists ((ConsoleLog (fetching_line src) :: requests_of src) ++ evs).
      split; [cbn [fst]; rewrite T; now rewrite <- app_assoc|].
      intros v Hv. apply in_app_or in Hv. destruct Hv as [Hv|Hv]; [auto|].
      destruct (Hev _ Hv) as [b Hb]. discriminate.
    + exists ((ConsoleLog (fetching_line src) :: requests_of src) ++ evs
              ++ [ConsoleError (failure_line src e)]).
      split; [cbn [fst logged trace]; rewrite T; now rewrite <- !app_assoc|].
      intros v Hv. apply in_app_or in Hv. destruct Hv as [Hv|Hv]; [auto|].
      apply in_app_or in Hv. destruct Hv as [Hv|[Hv|[]]]; [|discriminate].
      destruct (Hev _ Hv) as [b Hb]. discriminate.
  - intros Hrun; inversion Hrun; subst. eexists. split; [reflexivity|].
    intros v Hv. change (In (HttpGet v)
      ((ConsoleLog (fetching_line src) :: requests_of src)
       ++ [ConsoleError (failure_line src e)])) in Hv.
    apply in_app_or in Hv. destruct Hv as [Hv|[Hv|[]]]; [auto | discriminate].
Qed.

Lemma for_sources_requests srcs st r st' :
  for_of (filter src_enabled srcs) (ingest_source env) st = (r, st') ->
  requests_from srcs st st'.
Proof.
  apply for_of_preserves with (R := requests_from srcs).
  - apply requests_from_refl.
  - apply requests_from_trans.
  - intros x s r0 s0 Hin. apply filter_In in Hin as [Hin Hon].
    now apply ingest_source_requests.
Qed.

(** A source of type ['rss'] is requested in its turn. *)
Lemma ingest_source_requests_rss src st st' :
  src_type src = "rss" ->
  ingest_source env src st = (Returned tt, st') ->
  exists evs, trace (fst st') = trace (fst st) ++ evs /\
              In (HttpGet (src_url src)) evs.
Proof.
  intros Hty. destruct st as [p loc].
  rewrite ingest_source_effects.
  assert (Hreq : requests_of src = [HttpGet (src_url src)]).
  { unfold requests_of. rewrite Hty. reflexivity. }
  rewrite Hreq.
  destruct (fetched env src) as [items|e].
  - destruct (for_of items (ingest_item env src) _) as [[u|e] [p' loc']] eqn:E;
      intros Hrun; inversion Hrun; subst;
      apply for_items_grows in E; destruct E as (_ & _ & _ & [evs T] & _);
      cbn [fst logged trace] in *; rewrite T, <- ?app_assoc;
      eexists; (split; [reflexivity|]); cbn; tauto.
  - intros Hrun; inversion Hrun; subst. cbn [fst logged trace].
    eexists; (split; [reflexivity|]); cbn; tauto.
Qed.

Lemma for_sources_request_made src srcs :
  In src srcs -> src_type src = "rss" ->
  forall st st',
    for_of srcs (ingest_source env) st = (Returned tt, st') ->
    exists evs, trace (fst st') = trace (fst st) ++ evs /\
                In (HttpGet (src_url src)) evs.
Proof.
  intros Hin Hty.
  induction srcs as [|x rest IH]; [destruct Hin|].
  intros st st' Hrun. cbn in Hrun. unfold bind in Hrun.
  destruct (ingest_source_returns env x st) as [st1 Hx].
  rewrite Hx in Hrun.
  destruct Hin as [->|Hin].
  - destruct (ingest_source_requests_rss src st Hty Hx) as (evs1 & T1 & H1).
    apply for_sources_grows in Hrun. destruct Hrun as (_ & _ & _ & [evs2 T2] & _).
    exists (evs1 ++ evs2). split.
    + rewrite T2, T1. now rewrite app_assoc.
    + apply in_or_app. now left.
  - destruct (IH Hin st1 st' Hrun) as (evs2 & T2 & H2).
    apply ingest_source_grows in Hx. destruct Hx as (_ & _ & _ & [evs1 T1] & _).
    exists (evs1 ++ evs2). split.
    + rewrite T2, T1. now rewrite app_assoc.
    + apply in_or_app. now right.
Qed.

(** A pass one of whose two reads fails, with its effects spelled out. *)
Lemma fetchArticles_unreadable_effects p :
  isRunning p = false ->
  unreadable (sourcesFile p) \/ unreadable (articlesFile p) ->
  exists e evs,
    fetchArticles env p =
      (Returned (mkResult false (e_message e)), logged p evs) /\
    forall ev, In ev evs ->
      (exists line, ev = ConsoleLog line \/ ev = ConsoleError line)
      \/ (exists path, ev = FsRead path).
Proof.
  intros Hidle Hbad.
  assert (Hcase : (exists e, parse_file sourcesPath (sourcesFile p) = Thrown e) \/
                  (exists srcs e, sourcesFile p = Stored srcs /\
                                  parse_file articlesPath (articlesFile p) = Thrown e)).
  { destruct (sourcesFile p) as [|c|srcs]; [left; now eexists..|].
    destruct Hbad as [[]|Hbad].
    destruct (unreadable_Thrown articlesPath _ Hbad) as [e He].
    right. now exists srcs, e. }
  unfold fetchArticles. rewrite Hidle.
  unfold bind at 1. cbn [set_isRunning].
  unfold bind at 1. unfold console_log at 1, emit at 1.
  unfold try_finally, try_catch, pass_body.
  unfold bind at 1. unfold read_sources, bind at 1, emit at 1.
  cbn [sourcesFile articlesFile isRunning dateReads trace].
  destruct Hcase as [[e Hs] | (srcs & e & Hs & Ha)].
  - rewrite Hs. unfold bind, console_error, emit, set_isRunning, ret, logged.
    cbn [sourcesFile articlesFile isRunning dateReads trace].
    rewrite <- Hidle, <- !app_assoc. exists e. eexists. split; [reflexivity|].
    cbn. intros ev [<-|[<-|[<-|[]]]]; eauto.
  - rewrite Hs. cbn [parse_file].
    unfold bind at 1. unfold read_articles, bind at 1, emit at 1.
    cbn [sourcesFile articlesFile isRunning dateReads trace].
    rewrite Ha. unfold bind, console_error, emit, set_isRunning, ret, logged.
    cbn [sourcesFile articlesFile isRunning dateReads trace].
    rewrite <- Hidle, <- Hs, <- !app_assoc. exists e. eexists. split; [reflexivity|].
    cbn. intros ev [<-|[<-|[<-|[<-|[]]]]]; eauto.
Qed.

(** Whatever the state, the call returns a result object. *)
Lemma fetchArticles_returns p :
  exists r p', fetchArticles env p = (Returned r, p').
Proof.
  destruct (isRunning p) eqn:Hrun.
  - unfold fetchArticles. rewrite Hrun. now do 2 eexists.
  - destruct (fetchArticles_idle env p Hrun) as (r & p' & _ & H & _).
    now exists r, p'.
Qed.

End PassEffects.

(** X9. A source of type ['rss'] added through [POST /api/sources] is
    requested by the pass that follows: with the guard free and both files
    readable, the pass succeeds and its effects include the request for
    the URL that was posted. *)
Theorem posted_source_is_fetched_by_next_pass
    (env : Env) (ms_clock : nat -> Z) (name url : string)
    (p : proc) (srcs : list source) (arts : list article) :
  name <> "" -> url <> "" ->
  isRunning p = false ->
  sourcesFile p = Stored srcs ->
  articlesFile p = Stored arts ->
  exists p1 r p2 evs,
    post_sources ms_clock (mkForm (Some name) (Some url) (Some "rss")) p
      = (Returned (mkReply 200 (Added (ms_clock (dateReads p)))), p1) /\
    fetchArticles env p1 = (Returned r, p2) /\
    success r = true /\
    trace p2 = trace p1 ++ evs /\
    In (HttpGet url) evs.
Proof.
  intros Hn Hu Hidle Hs Ha.
  assert (Ht : "rss" <> "") by discriminate.
  pose proof (post_sources_stored ms_clock p Hn Hu Ht Hs) as Hpost.
  match type of Hpost with _ = (_, ?q) => set (p1 := q) in * end.
  destruct (fetchArticles_pass_summary env p1
              (srcs := srcs ++ [mkSource (ms_clock (dateReads p)) name url "rss" true])
              (arts := arts) Hidle eq_refl Ha)
    as (q & added & Hloop & Hrun & _ & _).
  destruct (for_sources_request_made env
              (mkSource (ms_clock (dateReads p)) name url "rss" true)
              (filter src_enabled
                 (srcs ++ [mkSource (ms_clock (dateReads p)) name url "rss" true])))
    with (st := (started p1, mkLocals arts 0))
         (st' := (q, mkLocals (arts ++ added) (List.length added)))
    as (evs & T & Hin).
  { apply filter_In. split; [|reflexivity]. apply in_or_app. right. now left. }
  { reflexivity. }
  { exact Hloop. }
  cbn [fst] in T. cbn [src_url] in Hin.
  exists p1. do 3 eexists.
  split; [exact Hpost|]. split; [exact Hrun|]. split; [reflexivity|].
  split.
  - cbn [completed trace]. rewrite T. cbn [started trace].
    rewrite <- !app_assoc. reflexivity.
  - apply in_or_app. right. apply in_or_app. left. exact Hin.
Qed.

Lemma posted_source_is_fetched_by_next_pass_witness :
  exists p1 r p2 evs,
    post_sources Demo.ms_clock
      (mkForm (Some "B") (Some Demo.feedB) (Some "rss"))
      (Demo.idle (Stored []) (Stored []))
      = (Returned (mkReply 200 (Added 1000)), p1) /\
    fetchArticles Demo.env p1 = (Returned r, p2) /\
    success r = true /\
    trace p2 = trace p1 ++ evs /\
    In (HttpGet Demo.feedB) evs.
Proof.
  apply (@posted_source_is_fetched_by_next_pass Demo.env Demo.ms_clock
           "B" Demo.feedB (Demo.idle (Stored []) (Stored [])) [] []);
    try discriminate; reflexivity.
Defined.

(** X10. Whatever the state, the only requests a call of [fetchArticles]
    makes go to the URLs of sources of the list on disk that are enabled
    and of type ['rss'], and it makes them only when it found the guard
    free: a disabled source or a source of another type is never
    requested. *)
Theorem pass_requests_only_enabled_rss (env : Env) (p : proc) :
  exists evs,
    trace (snd (fetchArticles env p)) = trace p ++ evs /\
    forall u, In (HttpGet u) evs ->
      isRunning p = false /\
      exists srcs src,
        sourcesFile p = Stored srcs /\ In src srcs /\
        src_enabled src = true /\ src_type src = "rss" /\ src_url src = u.
Proof.
  destruct (isRunning p) eqn:Hrun.
  - exists []. unfold fetchArticles. rewrite Hrun. cbn.
    split; [now rewrite app_nil_r | intros u []].
  - destruct (files_readable_dec p) as [Hbad|(srcs & arts & Hs & Ha)].
    + destruct (fetchArticles_unreadable_effects env p Hrun Hbad)
        as (e & evs & -> & Hev).
      exists evs. split; [reflexivity|].
      intros u Hu. destruct (Hev _ Hu) as [[line [H|H]]|[path H]]; discriminate.
    + destruct (fetchArticles_pass_summary env p Hrun Hs Ha)
        as (p1 & added & Hloop & -> & _ & _).
      apply for_sources_requests in Hloop. destruct Hloop as (evs & T & Hreq).
      cbn [fst started trace] in T.
      eexists. split.
      * cbn [snd completed trace]. rewrite T, <- !app_assoc. reflexivity.
      * intros u Hu. split; [reflexivity|]. exists srcs.
        cbn in Hu. destruct Hu as [Hu|[Hu|[Hu|Hu]]]; try discriminate.
        apply in_app_or in Hu. destruct Hu as [Hu|[Hu|[Hu|[]]]]; try discriminate.
        destruct (Hreq u Hu) as (src & H1 & H2 & H3 & H4).
        exists src. tauto.
Qed.

(** X11. A call of [fetchArticles] that is turned away by the guard, or
    that finds the source list or the article store missing or not JSON,
    returns [success: false] and has only printed to the console and read
    files: nothing was written, requested or summarized, and both files,
    the guard and the clock are as before. *)
Theorem turned_away_or_unreadable_changes_nothing (env : Env) (p : proc) :
  isRunning p = true \/ unreadable (sourcesFile p) \/ unreadable (articlesFile p) ->
  exists r evs,
    fetchArticles env p = (Returned r, logged p evs) /\
    success r = false /\
    forall ev, In ev evs ->
      (exists line, ev = ConsoleLog line \/ ev = ConsoleError line)
      \/ (exists path, ev = FsRead path).
Proof.
  intros Hcase.
  destruct (isRunning p) eqn:Hbusy.
  - exists already_in_progress, [].
    split; [|split; [reflexivity|intros ev []]].
    unfold fetchArticles, ret, logged. rewrite Hbusy, app_nil_r.
    rewrite <- Hbusy. now destruct p.
  - destruct Hcase as [Habs|Hbad]; [discriminate|].
    destruct (fetchArticles_unreadable_effects env p Hbusy Hbad)
      as (e & evs & Hf & Hev).
    exists (mkResult false (e_message e)), evs. now repeat split.
Qed.

Lemma turned_away_or_unreadable_changes_nothing_witness :
  exists r evs,
    fetchArticles Demo.env
      (Demo.idle (Stored [Demo.srcB]) (Malformed "Unexpected token"))
      = (Returned r,
         logged (Demo.idle (Stored [Demo.srcB]) (Malformed "Unexpected token")) evs) /\
    success r = false /\
    forall ev, In ev evs ->
      (exists line, ev = ConsoleLog line \/ ev = ConsoleError line)
      \/ (exists path, ev = FsRead path).
Proof.
  apply (turned_away_or_unreadable_changes_nothing Demo.env
           (Demo.idle (Stored [Demo.srcB]) (Malformed "Unexpected token"))).
  right. right. exact I.
Defined.

(* ================================================================== *)
(** ** What a pass appends *)

Lemma for_of_app {S X} (body : X -> M S unit) (xs ys : list X) (s : S) :
  for_of (xs ++ ys) body s =
    match for_of xs body s with
    | (Returned _, s1) => for_of ys body s1
    | (Thrown e, s1) => (Thrown e, s1)
    end.
Proof.
  revert s. induction xs as [|x rest IH]; intros s; cbn.
  - reflexivity.
  - unfold bind. destruct (body x s) as [[[]|e] s1]; [apply IH | reflexivity].
Qed.

Section Appending.

Variable env : Env.

Lemma stamped_refl st : stamped env st st.
Proof.
  exists []. cbn. rewrite app_nil_r. repeat split. lia.
Qed.

Lemma stamped_trans st1 st2 st3 :
  stamped env st1 st2 -> stamped env st2 st3 -> stamped env st1 st3.
Proof.
  intros (a1 & E1 & D1 & F1) (a2 & E2 & D2 & F2).
  exists (a1 ++ a2). repeat split.
  - rewrite E2, E1. now rewrite app_assoc.
  - rewrite D2, D1, length_app. lia.
  - rewrite map_app, length_app, seq_app, map_app, F1, F2, D1. reflexivity.
Qed.

Lemma stamped_logged p loc evs : stamped env (p, loc) (logged p evs, loc).
Proof.
  exists []. cbn. rewrite app_nil_r. repeat split. lia.
Qed.

Lemma ingest_item_stamped src it st r st' :
  ingest_item env src it st = (r, st') -> stamped env st st'.
Proof.
  destruct st as [p loc]. intros Hrun.
  destruct (In_dec_link (it_link it) (articles loc)) as [Hin|Hnew].
  - rewrite ingest_item_seen in Hrun by assumption.
    inversion Hrun; subst. apply stamped_refl.
  - destruct (summarize env (it_content it)) as [summary|e] eqn:Hsum.
    + rewrite (@ingest_item_admitted env src it p loc _ Hnew Hsum) in Hrun.
      inversion Hrun; subst. eexists [_]. cbn. repeat split. lia.
    + rewrite (@ingest_item_thrown env src it p loc _ Hnew Hsum) in Hrun.
      inversion Hrun; subst. exists []. cbn. rewrite app_nil_r. repeat split. lia.
Qed.

Lemma for_items_stamped src items st r st' :
  for_of items (ingest_item env src) st = (r, st') -> stamped env st st'.
Proof.
  apply for_of_preserves with (R := stamped env).
  - apply stamped_refl.
  - apply stamped_trans.
  - intros x s r0 s0 _. apply ingest_item_stamped.
Qed.

Lemma ingest_source_stamped src st r st' :
  ingest_source env src st = (r, st') -> stamped env st st'.
Proof.
  destruct st as [p loc]. rewrite ingest_source_effects.
  destruct (fetched env src) as [items|e].
  - destruct (for_of items (ingest_item env src) _) as [[u|e] [p' loc']] eqn:E;
      intros Hrun; inversion Hrun; subst;
      apply for_items_stamped in E;
      (eapply stamped_trans; [apply stamped_logged|]).
    + exact E.
    + eapply stamped_trans; [exact E | apply stamped_logged].
  - intros Hrun; inversion Hrun; subst. apply stamped_logged.
Qed.

Lemma for_sources_stamped srcs st r st' :
  for_of srcs (ingest_source env) st = (r, st') -> stamped env st st'.
Proof.
  apply for_of_preserves with (R := stamped env).
  - apply stamped_refl.
  - apply stamped_trans.
  - intros x s r0 s0 _. apply ingest_source_stamped.
Qed.

Lemma appended_refl P st : appended P st st.
Proof. exists []. rewrite app_nil_r. now split. Qed.

Lemma appended_trans P st1 st2 st3 :
  appended P st1 st2 -> appended P st2 st3 -> appended P st1 st3.
Proof.
  intros (a1 & E1 & F1) (a2 & E2 & F2).
  exists (a1 ++ a2). split.
  - rewrite E2, E1. now rewrite app_assoc.
  - apply Forall_app. now split.
Qed.

Lemma appended_impl (P Q : article -> Prop) st st' :
  (forall a, P a -> Q a) -> appended P st st' -> appended Q st st'.
Proof.
  intros HPQ (added & E & F). exists added. split; [exact E|].
  eapply Forall_impl; eassumption.
Qed.

Lemma appended_logged P p loc evs : appended P (p, loc) (logged p evs, loc).
Proof. exists []. cbn. rewrite app_nil_r. now split. Qed.

Lemma ingest_item_built src items it st r st' :
  In it items ->
  ingest_item env src it st = (r, st') -> appended (built_by env src items) st st'.
Proof.
  intros Hit. destruct st as [p loc]. intros Hrun.
  destruct (In_dec_link (it_link it) (articles loc)) as [Hin|Hnew].
  - rewrite ingest_item_seen in Hrun by assumption.
    inversion Hrun; subst. apply appended_refl.
  - destruct (summarize env (it_content it)) as [summary|e] eqn:Hsum.
    + rewrite (@ingest_item_admitted env src it p loc _ Hnew Hsum) in Hrun.
      inversion Hrun; subst. eexists [_]. split; [reflexivity|].
      constructor; [|constructor]. exists it. cbn. tauto.
    + rewrite (@ingest_item_thrown env src it p loc _ Hnew Hsum) in Hrun.
      inversion Hrun; subst. exists []. cbn. rewrite app_nil_r. now split.
Qed.

Lemma for_items_built src items st r st' :
  for_of items (ingest_item env src) st = (r, st') ->
  appended (built_by env src items) st st'.
Proof.
  apply for_of_preserves with (R := appended (built_by env src items)).
  - apply appended_refl.
  - apply appended_trans.
  - intros x s r0 s0 Hin. now apply ingest_item_built.
Qed.

Lemma ingest_source_built srcs src st r st' :
  In src srcs -> src_enabled src = true ->
  ingest_source env src st = (r, st') -> appended (built_from env srcs) st st'.
Proof.
  intros Hin Hon. destruct st as [p loc]. rewrite ingest_source_effects.
  destruct (fetched env src) as [items|e] eqn:Hf.
  - assert (Hup : forall a, built_by env src items a -> built_from env srcs a)
      by (intros a Ha; now exists src, items).
    destruct (for_of items (ingest_item env src) _) as [[u|e] [p' loc']] eqn:E;
      intros Hrun; inversion Hrun; subst;
      apply for_items_built, (appended_impl _ Hup) in E;
      (eapply appended_trans; [apply appended_logged|]).
    + exact E.
    + eapply appended_trans; [exact E | apply appended_logged].
  - intros Hrun; inversion Hrun; subst. apply appended_logged.
Qed.

Lemma for_sources_built srcs st r st' :
  for_of (filter src_enabled srcs) (ingest_source env) st = (r, st') ->
  appended (built_from env srcs) st st'.
Proof.
  apply for_of_preserves with (R := appended (built_from env srcs)).
  - apply appended_refl.
  - apply appended_trans.
  - intros x s r0 s0 Hin. apply filter_In in Hin as [Hin Hon].
    now apply ingest_source_built.
Qed.

End Appending.

(** X12. In a pass, the articles appended are stamped in the order they
    are appended with consecutive readings of the clock, one reading per
    article, starting with the first reading the pass takes: the k-th new
    article carries the k-th reading, and the pass takes exactly as many
    readings as it reports new articles. *)
Theorem new_articles_carry_consecutive_readings
    (env : Env) (p : proc) (srcs : list source) (arts : list article) :
  isRunning p = false ->
  sourcesFile p = Stored srcs ->
  articlesFile p = Stored arts ->
  exists p1 added,
    fetchArticles env p =
      (Returned (mkResult true
                   (fetched_message (List.length added)
                      (List.length (keep_most_recent env MAX_ARTICLES (arts ++ added))))),
       completed p1 (keep_most_recent env MAX_ARTICLES (arts ++ added))
                 (List.length added)) /\
    map a_fetched_at added
      = map (clock env) (seq (dateReads p) (List.length added)) /\
    dateReads p1 = dateReads p + List.length added.
Proof.
  intros Hidle Hs Ha.
  destruct (fetchArticles_pass_summary env p Hidle Hs Ha)
    as (p1 & added & Hloop & Hrun & _ & _).
  exists p1, added. split; [exact Hrun|].
  apply for_sources_stamped in Hloop. destruct Hloop as (added' & E & D & F).
  cbn in E, D, F. apply app_inv_head in E. subst added'. now split.
Qed.

Lemma new_articles_carry_consecutive_readings_witness :
  exists p1 added,
    fetchArticles Demo.env (Demo.idle (Stored [Demo.srcB]) (Stored [])) =
      (Returned (mkResult true
                   (fetched_message (List.length added)
                      (List.length (keep_most_recent Demo.env MAX_ARTICLES ([] ++ added))))),
       completed p1 (keep_most_recent Demo.env MAX_ARTICLES ([] ++ added))
                 (List.length added)) /\
    map a_fetched_at added
      = map (clock Demo.env)
            (seq (dateReads (Demo.idle (Stored [Demo.srcB]) (Stored [])))
                 (List.length added)) /\
    dateReads p1
      = dateReads (Demo.idle (Stored [Demo.srcB]) (Stored [])) + List.length added.
Proof.
  apply (@new_articles_carry_consecutive_readings Demo.env
           (Demo.idle (Stored [Demo.srcB]) (Stored [])) [Demo.srcB] []);
    reflexivity.
Defined.

(** X13. When the summarizer rejects for an item with a new link, the
    source is given up at that item and nothing is taken back: the locals
    are what the items before it left, all of which have their links in
    [articles]; the items after it are not looked at; the rejection is
    printed as the source's error; and the iteration itself returns, so
    the pass goes on with the next source. *)
Theorem rejected_summary_gives_up_the_rest
    (env : Env) (src : source) (pre post : list raw_item) (it : raw_item)
    (e : exn) (p : proc) (loc : locals) :
  fetched env src = Returned (pre ++ it :: post) ->
  (forall x, In x pre -> exists s, summarize env (it_content x) = Returned s) ->
  summarize env (it_content it) = Thrown e ->
  ~ In (it_link it) (map a_link (articles loc)) ->
  ~ In (it_link it) (map it_link pre) ->
  exists q' loc',
    for_of pre (ingest_item env src)
      (logged p (ConsoleLog (fetching_line src) :: requests_of src), loc)
      = (Returned tt, (q', loc')) /\
    ingest_source env src (p, loc) =
      (Returned tt,
       (logged q' [Summarize (it_content it); ConsoleError (failure_line src e)],
        loc')) /\
    (forall x, In x pre -> In (it_link x) (map a_link (articles loc'))).
Proof.
  intros Hf Hpre Hthrow Hnew Hfresh.
  destruct (for_items_ingested env src pre Hpre
              (logged p (ConsoleLog (fetching_line src) :: requests_of src)) loc)
    as (q' & loc' & evs & Hrun & Hlinks & _).
  exists q', loc'. split; [exact Hrun|]. split; [|exact Hlinks].
  assert (Hnew' : ~ In (it_link it) (map a_link (articles loc'))).
  { pose proof (for_items_built env _ _ _ Hrun) as (added & E & F).
    cbn in E. rewrite E, map_app. intros Hin. apply in_app_or in Hin.
    destruct Hin as [Hin|Hin]; [contradiction|].
    apply in_map_iff in Hin. destruct Hin as (a & Hla & Ha).
    rewrite Forall_forall in F. destruct (F a Ha) as (x & Hx & _ & _ & _ & Hl & _).
    apply Hfresh. apply in_map_iff. exists x. split; congruence. }
  rewrite ingest_source_effects, Hf, for_of_app, Hrun.
  cbn [for_of]. unfold bind.
  rewrite (@ingest_item_thrown env src it q' loc' e Hnew' Hthrow).
  unfold logged. cbn [isRunning sourcesFile articlesFile dateReads trace].
  now rewrite <- app_assoc.
Qed.

Lemma rejected_summary_gives_up_the_rest_witness :
  exists q' loc',
    for_of [to_item Demo.itemB1] (ingest_item Demo.env_picky Demo.srcB)
      (logged (Demo.idle (Stored [Demo.srcB]) (Stored []))
         (ConsoleLog (fetching_line Demo.srcB) :: requests_of Demo.srcB),
       mkLocals [] 0)
      = (Returned tt, (q', loc')) /\
    ingest_source Demo.env_picky Demo.srcB
      (Demo.idle (Stored [Demo.srcB]) (Stored []), mkLocals [] 0) =
      (Returned tt,
       (logged q' [Summarize "second body";
                   ConsoleError (failure_line Demo.srcB (Error "summarizer unavailable"))],
        loc')) /\
    (forall x, In x [to_item Demo.itemB1] ->
               In (it_link x) (map a_link (articles loc'))).
Proof.
  apply (@rejected_summary_gives_up_the_rest Demo.env_picky Demo.srcB
           [to_item Demo.itemB1] [] (to_item Demo.itemB2)
           (Error "summarizer unavailable")
           (Demo.idle (Stored [Demo.srcB]) (Stored [])) (mkLocals [] 0)).
  - reflexivity.
  - intros x [<-|[]]. now eexists.
  - reflexivity.
  - intros [].
  - intros [H|[]]. discriminate H.
Defined.

(** X14. A pass never invents an article and never touches a stored one:
    what it hands to the capacity step is the loaded store followed by
    new articles, and every new article was made from an item that an
    enabled source of the list delivered in this pass: it has that
    source's id and name, the item's title, link and publication date,
    and as summary what the summarizer returned for the item's content. *)
Theorem new_articles_come_from_fetched_items
    (env : Env) (p : proc) (srcs : list source) (arts : list article) :
  isRunning p = false ->
  sourcesFile p = Stored srcs ->
  articlesFile p = Stored arts ->
  exists p1 added,
    fetchArticles env p =
      (Returned (mkResult true
                   (fetched_message (List.length added)
                      (List.length (keep_most_recent env MAX_ARTICLES (arts ++ added))))),
       completed p1 (keep_most_recent env MAX_ARTICLES (arts ++ added))
                 (List.length added)) /\
    Forall (built_from env srcs) added.
Proof.
  intros Hidle Hs Ha.
  destruct (fetchArticles_pass_summary env p Hidle Hs Ha)
    as (p1 & added & Hloop & Hrun & _ & _).
  exists p1, added. split; [exact Hrun|].
  apply for_sources_built in Hloop. destruct Hloop as (added' & E & F).
  cbn in E. apply app_inv_head in E. now subst added'.
Qed.

Lemma new_articles_come_from_fetched_items_witness :
  exists p1 added,
    fetchArticles Demo.env (Demo.idle (Stored [Demo.srcA; Demo.srcB]) (Stored [])) =
      (Returned (mkResult true
                   (fetched_message (List.length added)
                      (List.length (keep_most_recent Demo.env MAX_ARTICLES ([] ++ added))))),
       completed p1 (keep_most_recent Demo.env MAX_ARTICLES ([] ++ added))
                 (List.length added)) /\
    Forall (built_from Demo.env [Demo.srcA; Demo.srcB]) added.
Proof.
  apply (@new_articles_come_from_fetched_items Demo.env
           (Demo.idle (Stored [Demo.srcA; Demo.srcB]) (Stored []))
           [Demo.srcA; Demo.srcB] []);
    reflexivity.
Defined.

(* ================================================================== *)
(** ** Start-up *)

(** X15. On a fresh installation (both data files missing, the guard
    free) the start-up initialization creates both files as the empty
    list, and the pass that follows reports success with 0 new articles
    of 0: it reads the two files, requests and summarizes nothing, writes
    the empty list back and prints the two lines of a completed pass. *)
Theorem first_pass_after_initialization (env : Env) (p : proc) :
  isRunning p = false ->
  sourcesFile p = Absent ->
  articlesFile p = Absent ->
  fetchArticles env (initialize_data_files p) =
    (Returned (mkResult true "Fetched 0 new articles. Total: 0"),
     mkProc false (Stored []) (Stored []) (dateReads p)
            (trace p ++
               [ConsoleLog "Starting manual fetch...";
                FsRead sourcesPath; FsRead articlesPath;
                FsWrite articlesPath;
                ConsoleLog "Fetch complete. Total articles: 0, New: 0"])).
Proof.
  intros Hidle Hs Ha.
  assert (Hloop : for_of (filter src_enabled []) (ingest_source env)
                    (started (initialize_data_files p), mkLocals [] 0)
                  = (Returned tt, (started (initialize_data_files p), mkLocals [] 0)))
    by reflexivity.
  assert (Hs' : sourcesFile (initialize_data_files p) = Stored [])
    by (cbn; now rewrite Hs).
  assert (Ha' : articlesFile (initialize_data_files p) = Stored [])
    by (cbn; now rewrite Ha).
  rewrite (fetchArticles_pass env (initialize_data_files p) Hidle Hs' Ha' Hloop).
  unfold completed, started, initialize_data_files.
  cbn [sourcesFile articlesFile isRunning dateReads trace articles newCount].
  rewrite Hs, <- app_assoc. reflexivity.
Qed.

Lemma first_pass_after_initialization_witness :
  fetchArticles Demo.env (initialize_data_files (Demo.idle Absent Absent)) =
    (Returned (mkResult true "Fetched 0 new articles. Total: 0"),
     mkProc false (Stored []) (Stored []) 0
            ([] ++
               [ConsoleLog "Starting manual fetch...";
                FsRead sourcesPath; FsRead articlesPath;
                FsWrite articlesPath;
                ConsoleLog "Fetch complete. Total articles: 0, New: 0"])).
Proof.
  apply (first_pass_after_initialization Demo.env (Demo.idle Absent Absent));
    reflexivity.
Defined.

(** X16. The fetch started at start-up never ends in its [catch]: whatever
    the state and the environment, it returns, and the last thing it
    prints is the "Startup fetch result" line with the message of the
    result [fetchArticles] gave. *)
Theorem startup_fetch_prints_the_result (env : Env) (p : proc) :
  exists r p1,
    fetchArticles env
      (logged p [ConsoleLog "Auto-fetching articles on server startup..."])
      = (Returned r, p1) /\
    startup_fetch env p =
      (Returned tt,
       logged p1 [ConsoleLog ("Startup fetch result: " ++ message r)%string]).
Proof.
  destruct (fetchArticles_returns env
              (logged p [ConsoleLog "Auto-fetching articles on server startup..."]))
    as (r & p1 & Hrun).
  exists r, p1. split; [exact Hrun|].
  unfold startup_fetch, bind at 1, console_log at 1, emit at 1.
  change (mkProc (isRunning p) (sourcesFile p) (articlesFile p) (dateReads p)
            (trace p ++ [ConsoleLog "Auto-fetching articles on server startup..."]))
    with (logged p [ConsoleLog "Auto-fetching articles on server startup..."]).
  unfold try_catch, bind. rewrite Hrun. reflexivity.
Qed.

(* ================================================================== *)
(** ** [fetchSource] on a feed *)

(** X17. For a source of type ['rss'], [fetchSource] makes one request, to
    the source's URL.  If the parser rejects, so does [fetchSource], with
    the same error.  If it delivers a feed, the result has one item per
    feed item, in feed order, with the feed item's link, title and
    [pubDate]; its content is never [undefined]: it is [contentSnippet]
    unless that is missing or empty, else [content] unless that is missing
    or empty, else the empty string. *)
Theorem fetchSource_maps_the_feed (env : Env) (src : source) (p : proc) :
  src_type src = "rss" ->
  (forall e, parseURL env (src_url src) = Thrown e ->
             fetchSource env src p = (Thrown e, logged p [HttpGet (src_url src)])) /\
  (forall feed,
     parseURL env (src_url src) = Returned feed ->
     exists items,
       fetchSource env src p = (Returned items, logged p [HttpGet (src_url src)]) /\
       List.length items = List.length feed /\
       map it_link items = map i_link feed /\
       map it_title items = map i_title feed /\
       map it_published items = map i_pubDate feed /\
       map it_content items = map content_of feed) /\
  (forall i,
     (truthy (i_contentSnippet i) = true ->
      i_contentSnippet i = Some (content_of i)) /\
     (truthy (i_contentSnippet i) = false -> truthy (i_content i) = true ->
      i_content i = Some (content_of i)) /\
     (truthy (i_contentSnippet i) = false -> truthy (i_content i) = false ->
      content_of i = "")).
Proof.
  intros Hty. apply String.eqb_eq in Hty.
  split; [|split].
  - intros e He. rewrite fetchSource_rss by assumption. now rewrite He.
  - intros feed Hfeed. exists (map to_item feed).
    rewrite fetchSource_rss by assumption. rewrite Hfeed.
    rewrite length_map, !map_map. repeat split.
  - intros i. unfold content_of. repeat split.
    + intros H. rewrite H. destruct (i_contentSnippet i); [reflexivity | discriminate].
    + intros H1 H2. rewrite H1, H2.
      destruct (i_content i); [reflexivity | discriminate].
    + intros H1 H2. now rewrite H1, H2.
Qed.

Lemma fetchSource_maps_the_feed_witness :
  exists items,
    fetchSource Demo.env Demo.srcB (Demo.idle (Stored []) (Stored [])) =
      (Returned items,
       logged (Demo.idle (Stored []) (Stored [])) [HttpGet (src_url Demo.srcB)]) /\
    List.length items = List.length [Demo.itemB1; Demo.itemB2] /\
    map it_link items = map i_link [Demo.itemB1; Demo.itemB2] /\
    map it_title items = map i_title [Demo.itemB1; Demo.itemB2] /\
    map it_published items = map i_pubDate [Demo.itemB1; Demo.itemB2] /\
    map it_content items = map content_of [Demo.itemB1; Demo.itemB2].
Proof.
  apply (proj1 (proj2 (fetchSource_maps_the_feed Demo.env Demo.srcB
                         (Demo.idle (Stored []) (Stored [])) eq_refl))).
  reflexivity.
Defined.

(* ================================================================== *)
(** ** The feed read, once more *)

(** X18. [GET /api/feed] only reads: whatever the state (a pass may be
    running), all it does to the process is add to the trace; the file is
    not written back in sorted order.  When the article store is missing
    or not JSON it answers 500 with ["Failed to read articles"]. *)
Theorem feed_only_reads (env : Env) (p : proc) :
  (exists evs,
     snd (api_feed env p) = logged p evs /\
     forall path, ~ In (FsWrite path) evs) /\
  (unreadable (articlesFile p) ->
   fst (api_feed env p) = Returned (Json500 "Failed to read articles")).
Proof.
  unfold api_feed, try_catch, bind, read_articles, bind, emit, console_error,
    emit, ret.
  cbn [articlesFile sourcesFile isRunning dateReads trace].
  destruct (articlesFile p) as [|c|arts] eqn:Ha; cbn [parse_file fst snd].
  - split; [|reflexivity].
    exists [FsRead articlesPath;
            ConsoleError ("Error reading articles: " ++ e_message (ENOENT articlesPath))%string].
    split.
    + unfold logged. cbn [articlesFile sourcesFile isRunning dateReads trace].
      rewrite Ha, <- app_assoc. reflexivity.
    + intros path [H|[H|[]]]; discriminate.
  - split; [|reflexivity].
    exists [FsRead articlesPath;
            ConsoleError ("Error reading articles: " ++ c)%string].
    split.
    + unfold logged. cbn [articlesFile sourcesFile isRunning dateReads trace].
      rewrite Ha, <- app_assoc. reflexivity.
    + intros path [H|[H|[]]]; discriminate.
  - split; [|intros []].
    exists [FsRead articlesPath]. split.
    + unfold logged. cbn [articlesFile sourcesFile isRunning dateReads trace].
      rewrite Ha. reflexivity.
    + intros path [H|[]]; discriminate.
Qed.

Lemma feed_only_reads_witness :
  fst (api_feed Demo.env (Demo.idle (Stored []) Absent))
  = Returned (Json500 "Failed to read articles").
Proof.
  apply (proj2 (feed_only_reads Demo.env (Demo.idle (Stored []) Absent))).
  exact I.
Defined.

(* ================================================================== *)
(** ** [escapeHtml] *)

Lemma string_app_assoc (a b c : string) :
  ((a ++ b) ++ c = a ++ (b ++ c))%string.
Proof.
  induction a as [|x rest IH]; cbn; [reflexivity | now rewrite IH].
Qed.

Lemma string_app_nil_r (a : string) : (a ++ "" = a)%string.
Proof.
  induction a as [|x rest IH]; cbn; [reflexivity | now rewrite IH].
Qed.

Lemma string_app_inv_head (a b c : string) :
  (a ++ b = a ++ c)%string -> b = c.
Proof.
  induction a as [|x rest IH]; cbn; intros H; [exact H|].
  injection H as H. now apply IH.
Qed.

Lemma replace_all_app (c : ascii) (rep a b : string) :
  replace_all c rep (a ++ b)
  = (replace_all c rep a ++ replace_all c rep b)%string.
Proof.
  induction a as [|x rest IH]; cbn; [reflexivity|].
  rewrite IH. destruct (Ascii.eqb x c); cbn; [|reflexivity].
  now rewrite string_app_assoc.
Qed.

Lemma replace_all_cons (c : ascii) (rep : string) (a : ascii) (r : string) :
  replace_all c rep (String a r)
  = ((if Ascii.eqb a c then rep else String a EmptyString)
     ++ replace_all c rep r)%string.
Proof.
  cbn. now destruct (Ascii.eqb a c).
Qed.

Lemma escapeHtml_Some (s : string) :
  escapeHtml (Some s) =
    replace_all chr_apos "&#039;"
      (replace_all chr_quot "&quot;"
         (replace_all chr_gt "&gt;"
            (replace_all chr_lt "&lt;"
               (replace_all chr_amp "&amp;" s)))).
Proof.
  unfold escapeHtml. cbn [truthy field].
  destruct (String.eqb_spec s "") as [->|_]; reflexivity.
Qed.

(** The five replacements, one after the other over the whole string, do
    to each character what one pass would. *)
Lemma escapeHtml_escape_string (s : string) :
  escapeHtml (Some s) = escape_string s.
Proof.
  rewrite escapeHtml_Some.
  induction s as [|a r IH]; [reflexivity|].
  cbn [escape_string]. rewrite <- IH.
  rewrite replace_all_cons, !replace_all_app.
  f_equal. unfold escape_char.
  repeat (cbn [replace_all append];
          match goal with
          | |- context [Ascii.eqb a ?k] => destruct (Ascii.eqb a k)
          end);
    reflexivity.
Qed.

Lemma escape_string_app (a b : string) :
  escape_string (a ++ b) = (escape_string a ++ escape_string b)%string.
Proof.
  induction a as [|x rest IH]; cbn; [reflexivity|].
  now rewrite IH, string_app_assoc.
Qed.

Lemma occurs_app (c : ascii) (a b : string) :
  occurs c (a ++ b) <-> occurs c a \/ occurs c b.
Proof.
  induction a as [|x rest IH]; cbn; [tauto | rewrite IH; tauto].
Qed.

Ltac by_char_cases :=
  unfold escape_char;
  repeat match goal with
         | |- context [Ascii.eqb ?x ?k] => destruct (Ascii.eqb x k) eqn:?
         end.

Ltac char_facts :=
  repeat match goal with
         | E : Ascii.eqb _ _ = true |- _ => apply Ascii.eqb_eq in E
         | E : Ascii.eqb _ _ = false |- _ => apply Ascii.eqb_neq in E
         end.

Lemma escape_char_clean (a c : ascii) :
  In c [chr_lt; chr_gt; chr_quot; chr_apos] -> ~ occurs c (escape_char a).
Proof.
  intros Hc. by_char_cases; char_facts; cbn;
    destruct Hc as [<-|[<-|[<-|[<-|[]]]]];
    intros H; repeat (destruct H as [H|H]; try discriminate H; try congruence);
    try destruct H.
Qed.

Lemma escape_char_inj (c d : ascii) (x y : string) :
  (escape_char c ++ x = escape_char d ++ y)%string -> c = d /\ x = y.
Proof.
  by_char_cases; char_facts; cbn; intros H;
    try discriminate H; injection H as; subst; try congruence; now split.
Qed.

Lemma escape_char_plain (a : ascii) :
  ~ In a [chr_amp; chr_lt; chr_gt; chr_quot; chr_apos] ->
  escape_char a = String a EmptyString.
Proof.
  intros Hplain. by_char_cases; char_facts; try reflexivity;
    exfalso; apply Hplain; subst; cbn; tauto.
Qed.

(** X19. The five global replacements of [escapeHtml], applied one after
    the other to the whole text, give what escaping each character once
    gives: an entity introduced by an earlier replacement is not touched
    by a later one.  Hence the escape of a concatenation is the
    concatenation of the escapes. *)
Theorem escapeHtml_is_one_pass (a b : string) :
  escapeHtml (Some a) = escape_string a /\
  escapeHtml (Some (a ++ b)%string)
  = (escapeHtml (Some a) ++ escapeHtml (Some b))%string.
Proof.
  split; [apply escapeHtml_escape_string|].
  rewrite !escapeHtml_escape_string. apply escape_string_app.
Qed.

(** X20. Whatever the text, none of the characters [<], [>], the double
    quote and the apostrophe occurs in what [escapeHtml] returns. *)
Theorem escapeHtml_output_is_clean (text : option string) (c : ascii) :
  In c [chr_lt; chr_gt; chr_quot; chr_apos] ->
  ~ occurs c (escapeHtml text).
Proof.
  intros Hc. destruct text as [s|]; [|intros []].
  rewrite escapeHtml_escape_string.
  induction s as [|a r IH]; cbn [escape_string]; [intros []|].
  rewrite occurs_app. intros [H|H]; [|now apply IH].
  now apply (@escape_char_clean a c Hc).
Qed.

Lemma escapeHtml_output_is_clean_witness :
  ~ occurs chr_lt
      (escapeHtml (Some (String chr_lt (String chr_amp (String chr_quot "b>"))))).
Proof.
  apply (@escapeHtml_output_is_clean
           (Some (String chr_lt (String chr_amp (String chr_quot "b>")))) chr_lt).
  left. reflexivity.
Defined.

(** X21. [escapeHtml] loses nothing: two texts with the same escape are
    the same text. *)
Theorem escapeHtml_injective (a b : string) :
  escapeHtml (Some a) = escapeHtml (Some b) -> a = b.
Proof.
  rewrite !escapeHtml_escape_string. revert b.
  induction a as [|c r IH]; intros [|d r']; cbn [escape_string]; intros H.
  - reflexivity.
  - exfalso. revert H. by_char_cases; cbn; discriminate.
  - exfalso. revert H. by_char_cases; cbn; discriminate.
  - apply escape_char_inj in H as [-> H]. f_equal. now apply IH.
Qed.

Lemma escapeHtml_injective_witness :
  substring 0 3 "a<b>c" = "a<b".
Proof.
  apply (@escapeHtml_injective (substring 0 3 "a<b>c") "a<b"). reflexivity.
Defined.

(** X22. A text in which none of the five characters occurs comes back as
    it is; a missing title ([undefined]) and the empty text both give the
    empty string. *)
Theorem escapeHtml_plain_text (s : string) :
  (forall c, In c [chr_amp; chr_lt; chr_gt; chr_quot; chr_apos] -> ~ occurs c s) ->
  escapeHtml (Some s) = s /\
  escapeHtml None = "" /\ escapeHtml (Some "") = "".
Proof.
  intros Hplain. split; [|split; reflexivity].
  rewrite escapeHtml_escape_string.
  induction s as [|a r IH]; [reflexivity|].
  cbn [escape_string]. rewrite IH.
  - rewrite escape_char_plain; [reflexivity|].
    intros Hin. apply (Hplain a Hin). now left.
  - intros c Hc Hocc. apply (Hplain c Hc). now right.
Qed.

Lemma escapeHtml_plain_text_witness :
  escapeHtml (Some "Fetched 2 articles") = "Fetched 2 articles" /\
  escapeHtml None = "" /\ escapeHtml (Some "") = "".
Proof.
  apply (@escapeHtml_plain_text "Fetched 2 articles").
  intros c Hc.
  destruct Hc as [<-|[<-|[<-|[<-|[<-|[]]]]]]; cbn;
    intros H; repeat (destruct H as [H|H]; try discriminate H); destruct H.
Defined.

(* ================================================================== *)
(** ** [POST /api/fetch] *)

(** X23. [POST /api/fetch] always answers, and what it leaves behind is
    what the call of [fetchArticles] inside it leaves behind.  The result
    object is sent as JSON only to a request whose [Accept] header
    contains ["application/json"] and whose [Content-Type] does not
    contain ["application/x-www-form-urlencoded"]; every other request,
    a request without [Accept] header among them, is redirected to
    [/text] whatever the pass did, a rejection or failure included. *)
Theorem post_fetch_answers (env : Env) (h : fetch_headers) (p : proc) :
  exists r p',
    fetchArticles env p = (Returned r, p') /\
    (post_fetch env h p = (Returned (JsonResult r), p') /\
     header_includes (h_accept h) "application/json" = true /\
     header_includes (h_content_type h) "application/x-www-form-urlencoded" = false
     \/
     post_fetch env h p = (Returned (Redirect "/text"), p') /\
     (header_includes (h_accept h) "application/json" = false \/
      header_includes (h_content_type h) "application/x-www-form-urlencoded" = true)) /\
    (h_accept h = None -> post_fetch env h p = (Returned (Redirect "/text"), p')).
Proof.
  destruct (fetchArticles_returns env p) as (r & p' & Hrun).
  exists r, p'. split; [exact Hrun|].
  unfold post_fetch, bind. rewrite Hrun.
  split.
  - destruct (header_includes (h_content_type h) "application/x-www-form-urlencoded"),
             (header_includes (h_accept h) "application/json"); cbn; tauto.
  - intros Hnone. rewrite Hnone. cbn [header_includes negb].
    now rewrite orb_true_r.
Qed.

(* ================================================================== *)
(** ** "Last updated" *)

Lemma later_first_descending (dates : list (option Z)) :
  (forall d, In d dates -> d <> None) ->
  descending_by later_first ms dates.
Proof.
  intros Hvalid x y Hx Hy.
  pose proof (Hvalid x Hx). pose proof (Hvalid y Hy).
  unfold SortCompare, later_first, Date_minus.
  destruct x as [tx|], y as [ty|]; try congruence.
  cbn. destruct (Z.ltb_spec 0 (ty - tx)), (Z.ltb_spec tx ty); lia.
Qed.

(** X24. The "Last updated" value of the text views is ['Never'] for an
    empty store; for a store whose [fetched_at] dates are all valid it is
    the local rendering of the latest of them: a fetch date of some
    stored article that no other is later than. *)
Theorem last_updated_is_the_latest_fetch
    (env : Env) (toLocaleString : option Z -> string) (arts : list article) :
  last_updated env toLocaleString [] = "Never" /\
  (arts <> [] ->
   (forall a, In a arts -> fetched_time env a <> None) ->
   exists a,
     In a arts /\
     last_updated env toLocaleString arts = toLocaleString (fetched_time env a) /\
     forall b, In b arts -> not_later (fetched_time env b) (fetched_time env a)).
Proof.
  split; [reflexivity|].
  intros Hne Hvalid.
  set (dates := map (fun a => new_Date env (Some (a_fetched_at a))) arts).
  assert (Hdates : forall d, In d dates -> d <> None).
  { intros d Hd. apply in_map_iff in Hd as (a & <- & Ha). now apply Hvalid. }
  pose proof (sort_sorted (later_first_descending dates Hdates)) as Hsorted.
  pose proof (sort_length later_first dates) as Hlen.
  destruct (sort later_first dates) as [|d rest] eqn:Hsort.
  { destruct arts; [congruence | discriminate Hlen]. }
  assert (Hd : In d dates) by (apply (sort_In later_first); rewrite Hsort; now left).
  pose proof Hd as Hd'. apply in_map_iff in Hd' as (a & Hda & Ha).
  exists a. split; [exact Ha|]. split.
  - unfold last_updated. destruct arts as [|a0 arts0]; [congruence|].
    fold dates. rewrite Hsort. cbn [hd]. now rewrite <- Hda.
  - intros b Hb.
    assert (Hbd : In (fetched_time env b) (d :: rest)).
    { rewrite <- Hsort. apply sort_In. unfold dates.
      apply in_map_iff. now exists b. }
    pose proof (Hvalid b Hb) as Vb.
    apply StronglySorted_inv in Hsorted as [_ Hall].
    assert (Vd : d <> None) by now apply Hdates.
    unfold fetched_time in *. rewrite Hda.
    destruct Hbd as [Heq|Hin].
    + rewrite <- Heq. destruct d as [t|]; [cbn; lia | congruence].
    + rewrite Forall_forall in Hall. specialize (Hall _ Hin).
      unfold key_ge in Hall.
      destruct d as [t|]; [|congruence].
      destruct (new_Date env (Some (a_fetched_at b))) as [tb|]; [|congruence].
      exact Hall.
Qed.

Lemma last_updated_is_the_latest_fetch_witness :
  let arts := [Demo.art "https://x/1" None 10; Demo.art "https://x/2" None 30;
               Demo.art "https://x/3" None 20] in
  exists a,
    In a arts /\
    last_updated Demo.env (fun d => show_nat (Z.to_nat (ms d))) arts
      = show_nat (Z.to_nat (ms (fetched_time Demo.env a))) /\
    forall b, In b arts ->
              not_later (fetched_time Demo.env b) (fetched_time Demo.env a).
Proof.
  apply (proj2 (last_updated_is_the_latest_fetch Demo.env
                  (fun d => show_nat (Z.to_nat (ms d)))
                  [Demo.art "https://x/1" None 10; Demo.art "https://x/2" None 30;
                   Demo.art "https://x/3" None 20])).
  - discriminate.
  - intros a [<-|[<-|[<-|[]]]]; vm_compute; discriminate.
Defined.
